(** * log-streamer: the backpressure-gated NDJSON writer and its connection
      handshake, embedded from [src/lib/index.ts] and [src/lib/got.ts].

    Layout of the development:
    - [Runtime]    the fragment of the JavaScript runtime the code relies on
                   (completions, strings, [JSON.stringify], template
                   literals);
    - [Stream]     Node's [Writable] contract as far as the code observes
                   it ([write] returns the capacity signal, ['drain'] fires
                   once the buffer empties) and the zlib [flush] call;
    - [Index]      [src/lib/index.ts]: [write], the ['drain'] listener, the
                   [Logger] constructor and its event loop, the arguments
                   [https.request] refuses, the pipeline callback;
    - [Throttled]  the [p-throttle] variant in [src/lib/got.ts];
    - [Http]       the listeners and the pipeline callback of the [http]
                   variant kept in [src/lib/index.ts];
    - [Main]       the entry point of [src/lib/index.ts]: environment,
                   service ids, the message loop, numbers as far as a
                   double holds them exactly;
    - the theorems, one block per property. *)

From Stdlib Require Import List String Ascii Bool NArith ZArith Lia.
From Stdlib Require Import Decimal DecimalString DecimalN.
Import ListNotations.

#[local] Set Warnings "-register-all".
Local Open Scope list_scope.
Local Open Scope string_scope.

(* ------------------------------------------------------------------ *)
(** ** The JavaScript runtime fragment *)

Module Runtime.

(** Errors that travel as exceptions.  [LoggerError] is the class the
    source declares ([class LoggerError extends Error]); [TypeError] is the
    built-in one [JSON.stringify] raises. *)
Inductive Cause : Type :=
| IncomingMessage (statusCode : N)
| SystemError (description : string).

Inductive Exn : Type :=
| TypeError (message : string)
| LoggerError (message : string) (cause : option Cause).

(** Completion of a JavaScript evaluation: a value, or an exception. *)
Inductive Completion (A : Type) : Type :=
| Normal (a : A)
| Throw (e : Exn).
Arguments Normal {A} a.
Arguments Throw {A} e.

(** Values a log record may hold (the source types a record as
    [{ [key]: any }]).  Numbers are the integers a double holds exactly,
    which [ToString] prints in plain decimal (timestamps, identifiers,
    counts); a [JsBigInt] is the standard value [JSON.stringify] refuses. *)
Inductive JsValue : Type :=
| JsUndefined
| JsNull
| JsBool (b : bool)
| JsNumber (z : Z)
| JsBigInt (z : Z)
| JsString (s : string)
| JsArray (elems : list JsValue)
| JsObject (props : list (string * JsValue)).

(** A record is a plain object, given by its own enumerable string-keyed
    properties in enumeration order. *)
Definition LogMessage : Type := list (string * JsValue).

Definition nl : ascii := "010"%char.
Definition dquote : ascii := "034"%char.
Definition backslash : ascii := "092"%char.

(** ['\n'] and the one-character string holding a double quote. *)
Definition newline : string := String nl "".
Definition dq : string := String dquote "".

(** [ToString] on a non-negative integer and on an integer. *)
Definition NatToString (n : N) : string :=
  NilZero.string_of_uint (N.to_uint n).

Definition NumberToString (z : Z) : string :=
  match z with
  | Z0 => "0"
  | Zpos p => NatToString (Npos p)
  | Zneg p => "-" ++ NatToString (Npos p)
  end.

Definition hex_digit (n : N) : ascii :=
  ascii_of_N (if (n <? 10)%N then 48 + n else 87 + n).

(** One code unit of [QuoteJSONString]: the two-character escapes, the
    [\u00xx] form for the other control characters, the character itself
    otherwise. *)
Definition escape_char (c : ascii) : string :=
  let n := N_of_ascii c in
  if (n =? 8)%N then "\b"
  else if (n =? 9)%N then "\t"
  else if (n =? 10)%N then "\n"
  else if (n =? 12)%N then "\f"
  else if (n =? 13)%N then "\r"
  else if (n =? 34)%N then String backslash dq
  else if (n =? 92)%N then "\\"
  else if (n <? 32)%N then
    "\u00" ++ String (hex_digit (n / 16)) (String (hex_digit (n mod 16)) "")
  else String c "".

Fixpoint escape_string (s : string) : string :=
  match s with
  | EmptyString => ""
  | String c rest => escape_char c ++ escape_string rest
  end.

Definition QuoteJSONString (s : string) : string :=
  dq ++ escape_string s ++ dq.

Fixpoint join (sep : string) (parts : list string) : string :=
  match parts with
  | [] => ""
  | [p] => p
  | p :: rest => p ++ sep ++ join sep rest
  end.

(** Running [f] over a list, left to right, stopping at the first
    exception. *)
Definition map_completion {A B} (f : A -> Completion B)
  : list A -> Completion (list B) :=
  fix go (l : list A) : Completion (list B) :=
    match l with
    | [] => Normal []
    | x :: rest =>
        match f x with
        | Throw e => Throw e
        | Normal b =>
            match go rest with
            | Throw e => Throw e
            | Normal bs => Normal (b :: bs)
            end
        end
    end.

(** An array element that serializes to [undefined] is printed [null]. *)
Definition element_text (o : option string) : string :=
  match o with Some s => s | None => "null" end.

(** A property that serializes to [undefined] is left out. *)
Definition member_text (ko : string * option string) : list string :=
  match snd ko with
  | Some s => [QuoteJSONString (fst ko) ++ ":" ++ s]
  | None => []
  end.

(** [SerializeJSONProperty]: [None] stands for [undefined]. *)
Fixpoint SerializeJSONProperty (v : JsValue) : Completion (option string) :=
  match v with
  | JsUndefined => Normal None
  | JsNull => Normal (Some "null")
  | JsBool b => Normal (Some (if b then "true" else "false"))
  | JsNumber z => Normal (Some (NumberToString z))
  | JsBigInt _ => Throw (TypeError "Do not know how to serialize a BigInt")
  | JsString s => Normal (Some (QuoteJSONString s))
  | JsArray elems =>
      match map_completion SerializeJSONProperty elems with
      | Throw e => Throw e
      | Normal os =>
          Normal (Some ("[" ++ join "," (map element_text os) ++ "]"))
      end
  | JsObject props =>
      match
        map_completion
          (fun kv : string * JsValue =>
             let '(k, x) := kv in
             match SerializeJSONProperty x with
             | Throw e => Throw e
             | Normal o => Normal (k, o)
             end) props
      with
      | Throw e => Throw e
      | Normal kos =>
          Normal (Some ("{" ++ join "," (flat_map member_text kos) ++ "}"))
      end
  end.

(** [JSON.stringify(msg)] for a record [msg]: an object always yields a
    string when nothing throws. *)
Definition JSON_stringify (msg : LogMessage) : Completion string :=
  match SerializeJSONProperty (JsObject msg) with
  | Throw e => Throw e
  | Normal (Some s) => Normal s
  | Normal None => Normal "undefined"
  end.

(** Bytes a string takes once encoded as UTF-8, for code units below 256. *)
Fixpoint byteLength (s : string) : N :=
  match s with
  | EmptyString => 0
  | String c rest =>
      ((if N_of_ascii c <? 128 then 1 else 2) + byteLength rest)%N
  end.

(** Reading NDJSON back: a line ends at each ['\n']; what follows the last
    one, when not empty, is a final line. *)
Fixpoint split_lines (s : string) : list string :=
  match s with
  | EmptyString => []
  | String c rest =>
      if Ascii.eqb c nl then "" :: split_lines rest
      else match split_lines rest with
           | [] => [String c ""]
           | l :: ls => String c l :: ls
           end
  end.

Fixpoint has_char (c : ascii) (s : string) : bool :=
  match s with
  | EmptyString => false
  | String d rest => Ascii.eqb d c || has_char c rest
  end.

Fixpoint has_substring (needle s : string) : bool :=
  String.prefix needle s ||
  match s with
  | EmptyString => false
  | String _ rest => has_substring needle rest
  end.

(** ["x".repeat(n)]. *)
Fixpoint padding (n : nat) : string :=
  match n with
  | O => ""
  | S k => String "x" (padding k)
  end.

(** The text a sequence of chunks makes up. *)
Definition text_of (chunks : list string) : string :=
  fold_right append "" chunks.

(** A character [QuoteJSONString] copies unchanged. *)
Definition plain (c : ascii) : bool :=
  let n := N_of_ascii c in
  (32 <=? n)%N && negb (n =? 34)%N && negb (n =? 92)%N.

Fixpoint all_plain (s : string) : bool :=
  match s with
  | EmptyString => true
  | String c rest => plain c && all_plain rest
  end.

(** Statements run over a state [S] and complete normally or abruptly;
    what was mutated before a [throw] stays mutated. *)
Definition Eff (S A : Type) : Type := S -> Completion A * S.

Definition ret {S A} (a : A) : Eff S A := fun s => (Normal a, s).

Definition bind {S A B} (m : Eff S A) (k : A -> Eff S B) : Eff S B :=
  fun s =>
    match m s with
    | (Normal a, s') => k a s'
    | (Throw e, s') => (Throw e, s')
    end.

Definition lift {S A} (c : Completion A) : Eff S A := fun s => (c, s).

(** [try { body } catch (e) { handler }]. *)
Definition try_catch {S} (body : Eff S unit) (handler : Exn -> Eff S unit)
  : Eff S unit :=
  fun s =>
    match body s with
    | (Normal a, s') => (Normal a, s')
    | (Throw e, s') => handler e s'
    end.

(** A promise and the two functions its executor is handed; settling a
    settled promise does nothing. *)
Inductive PromiseState (V : Type) : Type :=
| Pending
| Fulfilled (value : V)
| Rejected (reason : Exn).
Arguments Pending {V}.
Arguments Fulfilled {V} value.
Arguments Rejected {V} reason.

Definition resolve {V} (v : V) (p : PromiseState V) : PromiseState V :=
  match p with Pending => Fulfilled v | _ => p end.

Definition reject {V} (e : Exn) (p : PromiseState V) : PromiseState V :=
  match p with Pending => Rejected e | _ => p end.

(** The events a client request emits that the constructors listen to. *)
Inductive ReqEvent : Type :=
| response (statusCode : N)
| timeout_event
| close
| error (cause : string).

End Runtime.

Import Runtime.

Declare Scope js_scope.
Delimit Scope js_scope with js.
Notation "x <- m ;; k" := (bind m (fun x => k))
  (at level 61, m at next level, right associativity) : js_scope.
Notation "m ;; k" := (bind m (fun _ => k))
  (at level 61, right associativity) : js_scope.

(* ------------------------------------------------------------------ *)
(** ** Node streams, as far as the code observes them *)

Module Stream.

(** The writable side of a stream.  [write] appends the chunk and answers
    whether the bytes now held stay below [highWaterMark]; a [false] answer
    arms [needDrain].  The consumer takes chunks oldest first, and ['drain']
    is emitted when the last held chunk is taken while [needDrain] is set. *)
Record Writable : Type := mkWritable {
  highWaterMark : N;
  buffered : list string;
  needDrain : bool;
  consumed : list string
}.

Definition bufferedLength (w : Writable) : N :=
  fold_right (fun c n => (byteLength c + n)%N) 0%N (buffered w).

Definition stream_write (chunk : string) (w : Writable) : bool * Writable :=
  let ret := (bufferedLength w + byteLength chunk <? highWaterMark w)%N in
  (ret,
   {| highWaterMark := highWaterMark w;
      buffered := (buffered w ++ [chunk])%list;
      needDrain := needDrain w || negb ret;
      consumed := consumed w |}).

(** The consumer takes one chunk: the chunk taken (if any), whether
    ['drain'] is emitted, and the stream afterwards. *)
Definition stream_consume (w : Writable) : option string * bool * Writable :=
  match buffered w with
  | [] => (None, false, w)
  | c :: rest =>
      let drain := match rest with [] => needDrain w | _ => false end in
      (Some c, drain,
       {| highWaterMark := highWaterMark w;
          buffered := rest;
          needDrain := if drain then false else needDrain w;
          consumed := (consumed w ++ [c])%list |})
  end.

(** Everything the stream was given, in the order it was given. *)
Definition accepted (w : Writable) : list string :=
  (consumed w ++ buffered w)%list.

Inductive FlushKind : Type := Z_NO_FLUSH | Z_SYNC_FLUSH | Z_FULL_FLUSH.

(** A gzip transform: its writable side, the flush flag applied to each
    chunk ([flush] option) and the [flush()] calls made on it. *)
Record Gzip : Type := mkGzip {
  flushFlag : FlushKind;
  input : Writable;
  flushes : list FlushKind
}.

Record ZlibOptions : Type := mkZlibOptions {
  flush : option FlushKind;
  writableHighWaterMark : option N
}.

(** [zlib.createGzip(options)]: without options chunks are compressed
    with no flush and the high-water mark is the stream default, 16 KiB. *)
Definition createGzip (o : ZlibOptions) : Gzip :=
  {| flushFlag := match flush o with Some k => k | None => Z_NO_FLUSH end;
     input := {| highWaterMark :=
                   match writableHighWaterMark o with
                   | Some n => n
                   | None => 16384
                   end;
                 buffered := []; needDrain := false; consumed := [] |};
     flushes := [] |}.

Definition gzip_write (chunk : string) (g : Gzip) : bool * Gzip :=
  let (ret, w) := stream_write chunk (input g) in
  (ret, {| flushFlag := flushFlag g; input := w; flushes := flushes g |}).

(** [gzip.flush(kind)]; called without argument the kind is the full
    flush. *)
Definition gzip_flush (kind : option FlushKind) (g : Gzip) : Gzip :=
  {| flushFlag := flushFlag g;
     input := input g;
     flushes :=
       (flushes g ++ [match kind with Some k => k | None => Z_FULL_FLUSH end])%list |}.

Definition gzip_consume (g : Gzip) : option string * bool * Gzip :=
  let '(c, drain, w) := stream_consume (input g) in
  (c, drain, {| flushFlag := flushFlag g; input := w; flushes := flushes g |}).

End Stream.

Import Stream.

(* ------------------------------------------------------------------ *)
(** ** [src/lib/index.ts] *)

Module Index.

Definition RESPONSE_GRACE_PERIOD : N := 5 * 1000.
Definition REQUEST_TIMEOUT : N := 59 * 1000.

Inductive ConsoleEntry : Type :=
| console_error_entry (text : string) (e : Exn).

(** What the closures [write] and the ['drain'] listener share: the two
    [let] variables, the gzip stream, and the console they log to.  The
    counter is a JavaScript number; it is exact as long as it stays below
    2^53, which is taken for granted. *)
Record Session : Type := mkSession {
  writable : bool;
  dropCount : N;
  gzip : Gzip;
  console : list ConsoleEntry
}.

Definition M (A : Type) : Type := Eff Session A.

Local Open Scope js_scope.

Definition get_writable : M bool := fun s => (Normal (writable s), s).
Definition get_dropCount : M N := fun s => (Normal (dropCount s), s).

Definition set_writable (b : bool) : M unit := fun s =>
  (Normal tt, {| writable := b; dropCount := dropCount s;
                 gzip := gzip s; console := console s |}).

Definition set_dropCount (n : N) : M unit := fun s =>
  (Normal tt, {| writable := writable s; dropCount := n;
                 gzip := gzip s; console := console s |}).

(** [gzip.write(chunk)] and [gzip.flush()] on the session's stream. *)
Definition gzip_write_m (chunk : string) : M bool := fun s =>
  let (r, g) := gzip_write chunk (gzip s) in
  (Normal r, {| writable := writable s; dropCount := dropCount s;
                gzip := g; console := console s |}).

Definition gzip_flush_m : M unit := fun s =>
  (Normal tt, {| writable := writable s; dropCount := dropCount s;
                 gzip := gzip_flush None (gzip s); console := console s |}).

Definition console_error (text : string) (e : Exn) : M unit := fun s =>
  (Normal tt, {| writable := writable s; dropCount := dropCount s;
                 gzip := gzip s;
                 console := (console s ++ [console_error_entry text e])%list |}).

(** [const write = (msg) => { ... }], lines 83-98. *)
Definition write (msg : LogMessage) : M unit :=
  w <- get_writable ;;
  if w then
    try_catch
      (line <- lift (JSON_stringify msg) ;;
       r <- gzip_write_m (line ++ newline) ;;
       set_writable r ;;
       gzip_flush_m)
      (fun e =>
         console_error "Failed to write to logging stream, dropping message" e)
  else
    n <- get_dropCount ;;
    set_dropCount (n + 1).

(** The record the ['drain'] listener builds; [now] is [Date.now()]. *)
Definition warning (count : N) (now : Z) : LogMessage :=
  [ ("message",
     JsString ("Warning: Suppressed " ++ NatToString count
               ++ " message(s) due to high load"));
    ("timestamp", JsNumber now);
    ("isSystem", JsBool true);
    ("isStdErr", JsBool true) ].

(** [gzip.on('drain', () => { ... })], lines 100-112. *)
Definition on_drain (now : Z) : M unit :=
  set_writable true ;;
  n <- get_dropCount ;;
  (if (0 <? n)%N then
     write (warning n now) ;;
     set_dropCount 0
   else ret tt) ;;
  gzip_flush_m.

(** *** The constructor and the events that follow it *)

Record RequestOptions : Type := mkRequestOptions {
  method : string;
  timeout : N;
  agent : bool;
  headers : list (string * string)
}.

(** What goes out on a connection: the request head, then body chunks.  The
    head is kept with the headers the code set (Node adds its own [Host],
    [Connection] and [Transfer-Encoding] to them); a body chunk is kept as
    the plaintext the compressor was given for it. *)
Inductive WireItem : Type :=
| Head (method : string) (url : string) (headers : list (string * string))
| Body (chunk : string).

Record ClientRequest : Type := mkClientRequest {
  href : string;
  options : RequestOptions;
  sent : list WireItem
}.

Definition headersSent (r : ClientRequest) : bool :=
  match sent r with [] => false | _ => true end.

(** The request [https.request(url, options, callback)] returns when it
    accepts its arguments; [https_request_error] below is the check it
    makes first. *)
Definition https_request (url : string) (o : RequestOptions) : ClientRequest :=
  {| href := url; options := o; sent := [] |}.

Definition head_of (r : ClientRequest) : WireItem :=
  Head (method (options r)) (href r) (headers (options r)).

(** [req.flushHeaders()]: the head goes out now unless it already has. *)
Definition flushHeaders (r : ClientRequest) : ClientRequest :=
  if headersSent r then r
  else {| href := href r; options := options r; sent := [head_of r] |}.

(** A body write on the request (what the pipeline does with each chunk
    the compressor hands over); the head goes first if still unsent. *)
Definition request_write (chunk : string) (r : ClientRequest) : ClientRequest :=
  {| href := href r; options := options r;
     sent := (sent (flushHeaders r) ++ [Body chunk])%list |}.

(** The process running the constructor: the requests it has opened, the
    promise [Logger] returned, an exception nobody caught (which ends the
    process), the session, and the deadline of the pending [sleep], in
    milliseconds since the constructor was called. *)
Record Process : Type := mkProcess {
  requests : list ClientRequest;
  promise : PromiseState (LogMessage -> M unit);
  uncaught : option Exn;
  session : Session;
  timer : option N
}.

(** The four listeners of lines 39-62.  Each one throws. *)
Definition on_response (statusCode : N) : Completion unit :=
  Throw (LoggerError
           ("Received response from log backend with status code: "
            ++ NatToString statusCode)
           (Some (IncomingMessage statusCode))).

Definition on_timeout : Completion unit :=
  Throw (LoggerError
           "Request timed out when trying to connect to the log backend" None).

Definition on_close : Completion unit :=
  Throw (LoggerError "Request to the log backend terminated prematurely" None).

Definition on_error (cause : string) : Completion unit :=
  Throw (LoggerError
           "Request to the log backend terminated with unknown error"
           (Some (SystemError cause))).

(** [Logger(url, secret)] up to [await sleep(RESPONSE_GRACE_PERIOD)], once
    [https.request] has returned the request: its listeners are attached,
    its head flushed, the compressor created and piped into it, the
    session variables set.  [Logger_call] below is the call as a whole,
    with the case in which [https.request] throws. *)
Definition Logger (url secret : string) : Process :=
  let req :=
    https_request url
      {| method := "POST";
         timeout := REQUEST_TIMEOUT;
         agent := false;
         headers :=
           [ ("Authorization", "Bearer " ++ secret);
             ("Content-Type", "application/x-ndjson");
             ("Content-Encoding", "gzip");
             ("Keep-Alive", "timeout=" ++ NatToString (REQUEST_TIMEOUT / 1000)) ] |} in
  let req := flushHeaders req in
  let gzip :=
    createGzip {| flush := Some Z_SYNC_FLUSH;
                  writableHighWaterMark := Some 1024%N |} in
  {| requests := [req];
     promise := Pending;
     uncaught := None;
     session := {| writable := true; dropCount := 0; gzip := gzip; console := [] |};
     timer := Some RESPONSE_GRACE_PERIOD |}.

(** What can happen once the constructor is waiting: the request emits an
    event, the holder of the resolved [write] calls it, or the compressor
    hands its oldest chunk to the request ([now] is the clock the ['drain']
    listener reads if that empties the buffer). *)
Inductive Event : Type :=
| Req (e : ReqEvent)
| Call (msg : LogMessage)
| Consume (now : Z).

Definition listener (e : ReqEvent) : Completion unit :=
  match e with
  | response statusCode => on_response statusCode
  | timeout_event => on_timeout
  | close => on_close
  | error cause => on_error cause
  end.

Definition with_session (p : Process) (r : Completion unit * Session) : Process :=
  {| requests := requests p;
     promise := promise p;
     uncaught := match fst r with Normal _ => uncaught p | Throw e => Some e end;
     session := snd r;
     timer := timer p |}.

Definition with_uncaught (p : Process) (r : Completion unit) : Process :=
  {| requests := requests p;
     promise := promise p;
     uncaught := match r with Normal _ => uncaught p | Throw e => Some e end;
     session := session p;
     timer := timer p |}.

(** [pipeline(gzip, req, ...)]: a chunk leaving the compressor is written
    to the request. *)
Definition pipe_chunk (c : option string) (rs : list ClientRequest) : list ClientRequest :=
  match c, rs with
  | Some chunk, r :: rest => request_write chunk r :: rest
  | _, _ => rs
  end.

(** One event, handled to completion.  Nothing runs after an uncaught
    exception. *)
Definition step (ev : Event) (p : Process) : Process :=
  match uncaught p with
  | Some _ => p
  | None =>
      match ev with
      | Req e => with_uncaught p (listener e)
      | Call msg =>
          match promise p with
          | Fulfilled f => with_session p (f msg (session p))
          | _ => p
          end
      | Consume now =>
          let s := session p in
          let '(c, drain, g) := gzip_consume (gzip s) in
          let s' := {| writable := writable s; dropCount := dropCount s;
                       gzip := g; console := console s |} in
          let p' := {| requests := pipe_chunk c (requests p);
                       promise := promise p;
                       uncaught := uncaught p;
                       session := s';
                       timer := timer p |} in
          if drain then with_session p' (on_drain now s') else p'
      end
  end.

(** The continuation of [await sleep(RESPONSE_GRACE_PERIOD)] runs once the
    clock has reached the deadline: [resolve(write)]. *)
Definition fire_timer (t : N) (p : Process) : Process :=
  match uncaught p, timer p with
  | None, Some deadline =>
      if (deadline <=? t)%N then
        {| requests := requests p;
           promise := resolve write (promise p);
           uncaught := uncaught p;
           session := session p;
           timer := None |}
      else p
  | _, _ => p
  end.

(** An event arriving at time [t]: timers that are due run first. *)
Definition deliver (te : N * Event) (p : Process) : Process :=
  step (snd te) (fire_timer (fst te) p).

Definition run (evs : list (N * Event)) (p : Process) : Process :=
  fold_left (fun q te => deliver te q) evs p.

(** The body of every request, oldest chunk first. *)
Definition bodies (r : ClientRequest) : list string :=
  flat_map (fun w => match w with Body c => [c] | Head _ _ _ => [] end) (sent r).

Definition is_terminal (ev : Event) : bool :=
  match ev with Req _ => true | _ => false end.

(** No request event among [evs]. *)
Definition quiet (evs : list (N * Event)) : bool :=
  forallb (fun te => negb (is_terminal (snd te))) evs.

(** The records passed to [write], in call order. *)
Definition called (evs : list (N * Event)) : list LogMessage :=
  flat_map (fun te => match snd te with Call m => [m] | _ => [] end) evs.

(** The serializations of the records that have one, in order. *)
Definition serialized (msgs : list LogMessage) : list string :=
  flat_map (fun m => match JSON_stringify m with
                     | Normal line => [line]
                     | Throw _ => []
                     end) msgs.

Definition serializable (msg : LogMessage) : Prop :=
  exists line, JSON_stringify msg = Normal line.

(** Every call of [write] among [evs] finds the flag [true]. *)
Fixpoint forwarded (evs : list (N * Event)) (p : Process) : bool :=
  match evs with
  | [] => true
  | te :: rest =>
      match snd te with
      | Call _ => writable (session (fire_timer (fst te) p))
      | _ => true
      end && forwarded rest (deliver te p)
  end.

(** The compressor hands over, at time [t], whatever it still holds. *)
Definition finish (t : N) (now : Z) (p : Process) : Process :=
  run (repeat (t, Consume now) (List.length (buffered (input (gzip (session p)))))) p.

(** The body chunks that went out, over all requests of the process. *)
Definition body_chunks (p : Process) : list string :=
  flat_map bodies (requests p).

(** Sequential calls of [write] on a session. *)
Definition write_all (msgs : list LogMessage) (s : Session) : Session :=
  fold_left (fun q m => snd (write m q)) msgs s.

(** The line [JSON.stringify] gives for the warning record. *)
Definition warning_line (count : N) (now : Z) : string :=
  "{" ++ dq ++ "message" ++ dq ++ ":" ++ dq
  ++ "Warning: Suppressed " ++ NatToString count
  ++ " message(s) due to high load" ++ dq ++ ","
  ++ dq ++ "timestamp" ++ dq ++ ":" ++ NumberToString now ++ ","
  ++ dq ++ "isSystem" ++ dq ++ ":true,"
  ++ dq ++ "isStdErr" ++ dq ++ ":true}".

(** A process past its handshake in which no record has been dropped:
    [lines] are the lines given to the compressor so far, which are the
    body chunks already on the request followed by those it still holds. *)
Definition streaming (p : Process) (lines : list string) : Prop :=
  uncaught p = None
  /\ promise p = Fulfilled write
  /\ timer p = None
  /\ dropCount (session p) = 0%N
  /\ exists r,
       requests p = [r]
       /\ headersSent r = true
       /\ (bodies r ++ buffered (input (gzip (session p))))%list
          = map (fun l => l ++ newline) lines.

(** The counter has been reset whenever the flag is up. *)
Definition counter_rests (s : Session) : Prop :=
  writable s = true -> dropCount s = 0%N.

(** A session whose flag is down, as [write] leaves it when the sink
    reports itself full, with [count] records dropped since. *)
Definition congested (count : N) : Session :=
  {| writable := false; dropCount := count;
     gzip := createGzip {| flush := Some Z_SYNC_FLUSH;
                           writableHighWaterMark := Some 1024%N |};
     console := [] |}.

(** The tunable quantities a process runs with. *)
Record Knobs : Type := mkKnobs {
  gracePeriod : option N;
  requestTimeouts : list N;
  maxBufferedBytes : N
}.

Definition knobs (p : Process) : Knobs :=
  {| gracePeriod := timer p;
     requestTimeouts := map (fun r => timeout (options r)) (requests p);
     maxBufferedBytes := highWaterMark (input (gzip (session p))) |}.

(** The knobs of a process are the ones the constructor set: one request
    with the module's timeout, the compressor's high-water mark, and the
    grace timer, pending or spent. *)
Definition configured (p : Process) : Prop :=
  (promise p = Pending \/ promise p = Fulfilled write)
  /\ requestTimeouts (knobs p) = [REQUEST_TIMEOUT]
  /\ maxBufferedBytes (knobs p) = 1024%N
  /\ (gracePeriod (knobs p) = Some RESPONSE_GRACE_PERIOD
      \/ gracePeriod (knobs p) = None).

(** A process past its handshake and running: nothing uncaught, the
    promise fulfilled with [write], the grace timer spent. *)
Definition alive (p : Process) : Prop :=
  uncaught p = None /\ promise p = Fulfilled write /\ timer p = None.

(** The flag is never down without a ['drain'] being due: the sink has
    answered [false] and still holds a chunk. *)
Definition wakeup_due (s : Session) : Prop :=
  writable s = false ->
  needDrain (input (gzip s)) = true /\ buffered (input (gzip s)) <> [].

(** What every state of the process satisfies. *)
Definition sound (p : Process) : Prop :=
  (promise p = Pending \/ promise p = Fulfilled write)
  /\ counter_rests (session p)
  /\ wakeup_due (session p).

(** The exception a listener throws. *)
Definition thrown (c : Completion unit) : option Exn :=
  match c with
  | Throw x => Some x
  | Normal _ => None
  end.

(** The request carries, as its body, exactly what the compressor has
    taken so far. *)
Definition piped (p : Process) : Prop :=
  exists r,
    requests p = [r]
    /\ headersSent r = true
    /\ bodies r = consumed (input (gzip (session p))).

(** The chunk the ['drain'] listener pushes, if any. *)
Definition drain_chunks (count : N) (now : Z) : list string :=
  if (0 <? count)%N then [(warning_line count now ++ newline)%string] else [].

(** *** The call of [Logger] as a whole *)

(** A character a header value may hold: the tab, and everything from the
    space on except DEL (code units below 256). *)
Definition header_char_ok (c : ascii) : bool :=
  let n := N_of_ascii c in
  ((n =? 9) || (32 <=? n) && negb (n =? 127))%N.

Fixpoint header_value_ok (v : string) : bool :=
  match v with
  | EmptyString => true
  | String c rest => header_char_ok c && header_value_ok rest
  end.

(** A character of an HTTP token: a letter, a digit, or one of
    [!#$%&'*+-.^_`|~]. *)
Definition token_char (c : ascii) : bool :=
  let n := N_of_ascii c in
  ((48 <=? n) && (n <=? 57) || (65 <=? n) && (n <=? 90)
   || (97 <=? n) && (n <=? 122)
   || (n =? 33) || (35 <=? n) && (n <=? 39) || (n =? 42) || (n =? 43)
   || (n =? 45) || (n =? 46) || (94 <=? n) && (n <=? 96)
   || (n =? 124) || (n =? 126))%N.

Fixpoint all_token_chars (s : string) : bool :=
  match s with
  | EmptyString => true
  | String c rest => token_char c && all_token_chars rest
  end.

Definition is_token (s : string) : bool :=
  match s with
  | EmptyString => false
  | _ => all_token_chars s
  end.

(** [setHeader] on each header in turn: the first name that is no token,
    or value with an illegal character, is what is thrown. *)
Fixpoint header_error (hs : list (string * string)) : option Exn :=
  match hs with
  | [] => None
  | (name, value) :: rest =>
      if negb (is_token name) then
        Some (TypeError ("Header name must be a valid HTTP token ["
                         ++ dq ++ name ++ dq ++ "]"))
      else if negb (header_value_ok value) then
        Some (TypeError ("Invalid character in header content ["
                         ++ dq ++ name ++ dq ++ "]"))
      else header_error rest
  end.

(** What [request(url, options, callback)] of the [https] or the [http]
    module throws instead of returning a request: the url does not parse,
    its protocol is not the module's ([expected]), the method is no
    token, or a header is refused.  [protocol_of] is the URL parser of
    the runtime: the [protocol] of [new URL(url)], or [None] when the URL
    constructor throws. *)
Definition request_error (expected : string)
           (protocol_of : string -> option string)
           (url : string) (o : RequestOptions) : option Exn :=
  match protocol_of url with
  | None => Some (TypeError "Invalid URL")
  | Some protocol =>
      if negb (String.eqb protocol expected) then
        Some (TypeError ("Protocol " ++ dq ++ protocol ++ dq
                         ++ " not supported. Expected " ++ dq ++ expected ++ dq))
      else if negb (is_token (method o)) then
        Some (TypeError ("Method must be a valid HTTP token ["
                         ++ dq ++ method o ++ dq ++ "]"))
      else header_error (headers o)
  end.

Definition https_request_error : (string -> option string) -> string ->
                                 RequestOptions -> option Exn :=
  request_error "https:".

(** The options [Logger] passes to [https.request], lines 20-30. *)
Definition Logger_options (secret : string) : RequestOptions :=
  {| method := "POST";
     timeout := REQUEST_TIMEOUT;
     agent := false;
     headers :=
       [ ("Authorization", "Bearer " ++ secret);
         ("Content-Type", "application/x-ndjson");
         ("Content-Encoding", "gzip");
         ("Keep-Alive", "timeout=" ++ NatToString (REQUEST_TIMEOUT / 1000)) ] |}.

(** The process when [https.request] has thrown inside the executor: no
    request exists and nobody settles the promise.  The executor is an
    async function, so what it throws rejects the promise it returns,
    which nobody handles: an unhandled rejection, which ends the process
    as an uncaught exception does.  The session variables are not
    declared yet; they are given their initial values here and nothing
    ever reads them. *)
Definition refused (e : Exn) : Process :=
  {| requests := [];
     promise := Pending;
     uncaught := Some e;
     session := {| writable := true; dropCount := 0;
                   gzip := createGzip {| flush := Some Z_SYNC_FLUSH;
                                         writableHighWaterMark := Some 1024%N |};
                   console := [] |};
     timer := None |}.

(** [Logger(url, secret)] up to [await sleep(RESPONSE_GRACE_PERIOD)]. *)
Definition Logger_call (protocol_of : string -> option string)
           (url secret : string) : Process :=
  match https_request_error protocol_of url (Logger_options secret) with
  | Some e => refused e
  | None => Logger url secret
  end.

(** The URL parser on the urls of the examples, which are plain [https://]
    or [http://] urls; anything else is taken not to parse. *)
Definition sample_protocol_of (url : string) : option string :=
  if String.prefix "https://" url then Some "https:"
  else if String.prefix "http://" url then Some "http:"
  else None.

(** The callback of [pipeline(gzip, req, ...)], lines 73-78: with a cause
    it ends the request and throws (the throw ends the process, so the
    ended request is not followed). *)
Definition pipeline_callback (cause : option string) : Completion unit :=
  match cause with
  | Some c =>
      Throw (LoggerError "Failed to create gzip stream" (Some (SystemError c)))
  | None => Normal tt
  end.

(** Everything that can happen to the process: an event as above, or the
    pipeline calling its callback. *)
Inductive Incident : Type :=
| Event_of (ev : Event)
| Pipeline (cause : option string).

Definition befall (ti : N * Incident) (p : Process) : Process :=
  match snd ti with
  | Event_of ev => deliver (fst ti, ev) p
  | Pipeline cause =>
      let q := fire_timer (fst ti) p in
      match uncaught q with
      | Some _ => q
      | None => with_uncaught q (pipeline_callback cause)
      end
  end.

Definition life (incidents : list (N * Incident)) (p : Process) : Process :=
  fold_left (fun q ti => befall ti q) incidents p.

(** What an incident throws, when it throws. *)
Definition fatal (i : Incident) : option Exn :=
  match i with
  | Event_of (Req e) => thrown (listener e)
  | Event_of _ => None
  | Pipeline cause => thrown (pipeline_callback cause)
  end.

Fixpoint first_fatal (incidents : list (N * Incident)) : option Exn :=
  match incidents with
  | [] => None
  | (_, i) :: rest =>
      match fatal i with
      | Some x => Some x
      | None => first_fatal rest
      end
  end.

End Index.

(* ------------------------------------------------------------------ *)
(** ** The [p-throttle] variant of [src/lib/got.ts] *)

Module Throttled.

Definition ZLIB_TIMEOUT : Z := 100.
Definition MAX_PENDING_BYTES : N := 256 * 1024.
Definition RESPONSE_GRACE_PERIOD : N := 5 * 1000.

(** The limiter returned by [pThrottle({limit, interval})]: the start of
    the current window and the calls already placed in it. *)
Record Throttle : Type := mkThrottle {
  limit : Z;
  interval : Z;
  currentTick : Z;
  activeCount : Z
}.

Definition pThrottle (limit interval : Z) : Throttle :=
  {| limit := limit; interval := interval; currentTick := 0; activeCount := 0 |}.

(** The delay the limiter asks the timer for when the throttled function
    is called at clock [now]: none in a fresh window, the rest of the
    current window while it has room, otherwise the distance to the next
    window, which it opens.  A call is always given a slot, never dropped. *)
Definition windowedDelay (now : Z) (t : Throttle) : Z * Throttle :=
  if (interval t <? now - currentTick t)%Z then
    (0%Z, {| limit := limit t; interval := interval t;
             currentTick := now; activeCount := 1 |})
  else if (activeCount t <? limit t)%Z then
    ((currentTick t - now)%Z,
     {| limit := limit t; interval := interval t;
        currentTick := currentTick t; activeCount := (activeCount t + 1)%Z |})
  else
    ((currentTick t + interval t - now)%Z,
     {| limit := limit t; interval := interval t;
        currentTick := (currentTick t + interval t)%Z; activeCount := 1 |}).

Inductive ConsoleEntry : Type :=
| console_error_entry (text : string) (e : Exn).

(** The state the closures share: the two [let] variables, the
    [PassThrough] buffer [log], the limiter, and the slots (clock values)
    at which a [gzip.flush(Z_SYNC_FLUSH)] has been set to run, oldest
    first. *)
Record Session : Type := mkSession {
  writable : bool;
  dropCount : N;
  log : Writable;
  throttle : Throttle;
  slots : list Z;
  console : list ConsoleEntry
}.

Definition M (A : Type) : Type := Eff Session A.

Local Open Scope js_scope.

Definition get_writable : M bool := fun s => (Normal (writable s), s).
Definition get_dropCount : M N := fun s => (Normal (dropCount s), s).

Definition set_writable (b : bool) : M unit := fun s =>
  (Normal tt, {| writable := b; dropCount := dropCount s; log := log s;
                 throttle := throttle s; slots := slots s;
                 console := console s |}).

Definition set_dropCount (n : N) : M unit := fun s =>
  (Normal tt, {| writable := writable s; dropCount := n; log := log s;
                 throttle := throttle s; slots := slots s;
                 console := console s |}).

Definition log_write (chunk : string) : M bool := fun s =>
  let (r, w) := stream_write chunk (log s) in
  (Normal r, {| writable := writable s; dropCount := dropCount s; log := w;
                throttle := throttle s; slots := slots s;
                console := console s |}).

Definition console_error (text : string) (e : Exn) : M unit := fun s =>
  (Normal tt, {| writable := writable s; dropCount := dropCount s;
                 log := log s; throttle := throttle s; slots := slots s;
                 console := (console s ++ [console_error_entry text e])%list |}).

(** [const flush = throttle(() => { gzip.flush(Z_SYNC_FLUSH) })], lines
    203-205, called at clock [now]: the limiter picks the delay and a timer
    is set for the flush. *)
Definition flush (now : Z) : M unit := fun s =>
  let (delay, t) := windowedDelay now (throttle s) in
  (Normal tt, {| writable := writable s; dropCount := dropCount s;
                 log := log s; throttle := t;
                 slots := (slots s ++ [(now + delay)%Z])%list;
                 console := console s |}).

(** [const write = (msg) => { ... }], lines 207-222. *)
Definition write (now : Z) (msg : LogMessage) : M unit :=
  w <- get_writable ;;
  if w then
    try_catch
      (line <- lift (JSON_stringify msg) ;;
       r <- log_write (line ++ newline) ;;
       set_writable r ;;
       flush now)
      (fun e =>
         console_error "Failed to write to logging stream, dropping message" e)
  else
    n <- get_dropCount ;;
    set_dropCount (n + 1).

Definition warning (count : N) (now : Z) : LogMessage :=
  [ ("message",
     JsString ("Warning: Suppressed " ++ NatToString count
               ++ " message(s) due to high load"));
    ("timestamp", JsNumber now);
    ("isSystem", JsBool true);
    ("isStdErr", JsBool true) ].

(** [log.on('drain', () => { ... })], lines 224-236. *)
Definition on_drain (now : Z) : M unit :=
  set_writable true ;;
  flush now ;;
  n <- get_dropCount ;;
  if (0 <? n)%N then
    write now (warning n now) ;;
    set_dropCount 0
  else ret tt.

(** The four listeners of lines 140-165.  Each one rejects the promise. *)
Definition listener {V} (e : ReqEvent) : PromiseState V -> PromiseState V :=
  match e with
  | response statusCode =>
      reject (LoggerError
                ("Received response from log backend with status code: "
                 ++ NatToString statusCode) None)
  | timeout_event =>
      reject (LoggerError
                "Request timed out when trying to connect to the log backend"
                None)
  | close =>
      reject (LoggerError "Request to the log backend terminated prematurely"
                None)
  | error cause =>
      reject (LoggerError "Request to the log backend terminated prematurely"
                (Some (SystemError cause)))
  end.

(** The session as the constructor sets it up. *)
Definition initial : Session :=
  {| writable := true;
     dropCount := 0;
     log := {| highWaterMark := MAX_PENDING_BYTES / 2;
               buffered := []; needDrain := false; consumed := [] |};
     throttle := pThrottle 1 ZLIB_TIMEOUT;
     slots := [];
     console := [] |}.

(** The writes of a burst, each at its clock value, run in order. *)
Definition writes (calls : list (Z * LogMessage)) (s : Session) : Session :=
  fold_left (fun q c => snd (write (fst c) (snd c) q)) calls s.

(** The promise of the constructor given the request events that arrive
    before the grace period is over; [resolve(write)] follows them. *)
Definition construct (early : list ReqEvent)
  : PromiseState (Z -> LogMessage -> M unit) :=
  resolve write (fold_left (fun p e => listener e p) early Pending).

(** Consecutive slots lie at least [d] apart. *)
Fixpoint spaced (d : Z) (l : list Z) : Prop :=
  match l with
  | [] => True
  | a :: rest =>
      match rest with
      | [] => True
      | b :: _ => (a + d <= b)%Z
      end /\ spaced d rest
  end.

Definition last_slot (l : list Z) : option Z :=
  match List.rev l with [] => None | x :: _ => Some x end.

(** What the limiter of the constructor keeps true of a session: one call
    per window of [ZLIB_TIMEOUT], the slots apart by that much, and the
    window starting at the last slot given out. *)
Definition limited (s : Session) : Prop :=
  limit (throttle s) = 1%Z
  /\ interval (throttle s) = ZLIB_TIMEOUT
  /\ spaced ZLIB_TIMEOUT (slots s)
  /\ match last_slot (slots s) with
     | None => activeCount (throttle s) = 0%Z
     | Some x => activeCount (throttle s) = 1%Z /\ currentTick (throttle s) = x
     end.

(** [k] calls of the throttled [flush], all at clock [now]. *)
Fixpoint flush_burst (k : nat) (now : Z) (s : Session) : Session :=
  match k with
  | O => s
  | S k' => flush_burst k' now (snd (flush now s))
  end.

(** The slots [t], [t + d], ..., [t + (k - 1) * d]. *)
Fixpoint ladder (k : nat) (t d : Z) : list Z :=
  match k with
  | O => []
  | S k' => t :: ladder k' (t + d)%Z d
  end.

(** The promise over a whole life of the request: the events that arrive
    before the grace period is over, [resolve(write)], the events that
    arrive after it. *)
Definition timeline (early late : list ReqEvent)
  : PromiseState (Z -> LogMessage -> M unit) :=
  fold_left (fun p e => listener e p) late (construct early).

(** The error a listener builds for an event. *)
Definition error_of (e : ReqEvent) : Exn :=
  match e with
  | response statusCode =>
      LoggerError ("Received response from log backend with status code: "
                   ++ NatToString statusCode) None
  | timeout_event =>
      LoggerError "Request timed out when trying to connect to the log backend"
        None
  | close =>
      LoggerError "Request to the log backend terminated prematurely" None
  | error cause =>
      LoggerError "Request to the log backend terminated prematurely"
        (Some (SystemError cause))
  end.

End Throttled.

(* ------------------------------------------------------------------ *)
(** ** The [http] variant kept in [src/lib/index.ts] (second [Logger]) *)

Module Http.

Inductive ConsoleArg : Type :=
| number_arg (n : N)
| error_arg (description : string).

(** A [console.error(label, arg)] call. *)
Definition ConsoleLine : Type := (string * option ConsoleArg)%type.

(** What the executor, the listeners and the pipeline callback touch: the
    console, the promise, whether [req.end()] was called, and what the
    executor threw, which nobody handles. *)
Record Handshake (V : Type) : Type := mkHandshake {
  console : list ConsoleLine;
  promise : PromiseState V;
  ended : bool;
  unhandled : option Exn
}.
Arguments mkHandshake {V} _ _ _ _.
Arguments console {V} _.
Arguments promise {V} _.
Arguments ended {V} _.
Arguments unhandled {V} _.

Definition REQUEST_TIMEOUT : N := 59 * 1000.

(** The options the variant passes to [http.request], lines 228-237. *)
Definition Logger_options (secret : string) : Index.RequestOptions :=
  {| Index.method := "POST";
     Index.timeout := REQUEST_TIMEOUT;
     Index.agent := false;
     Index.headers :=
       [ ("Authorization", "Bearer " ++ secret);
         ("Content-Type", "application/x-ndjson");
         ("Content-Encoding", "gzip") ] |}.

(** The variant imports the [http] module under the name [https]. *)
Definition http_request_error : (string -> option string) -> string ->
                                Index.RequestOptions -> option Exn :=
  Index.request_error "http:".

Definition line_of (e : ReqEvent) : ConsoleLine :=
  match e with
  | response statusCode => ("Received response", Some (number_arg statusCode))
  | timeout_event => ("Request timed out", None)
  | close => ("Request closed", None)
  | error cause => ("Request error", Some (error_arg cause))
  end.

Definition error_of (e : ReqEvent) : Exn :=
  match e with
  | response statusCode =>
      LoggerError ("Received response from log backend with status code: "
                   ++ NatToString statusCode) None
  | timeout_event =>
      LoggerError "Request timed out when trying to connect to the log backend"
        None
  | close =>
      LoggerError "Request to the log backend terminated prematurely" None
  | error cause =>
      LoggerError "Request to the log backend terminated prematurely"
        (Some (SystemError cause))
  end.

(** The four listeners, lines 246-275: each one logs, then rejects. *)
Definition listener {V} (e : ReqEvent) (h : Handshake V) : Handshake V :=
  {| console := (console h ++ [line_of e])%list;
     promise := reject (error_of e) (promise h);
     ended := ended h;
     unhandled := unhandled h |}.

(** The callback of [pipeline(gzip, req, ...)], lines 286-292: with a
    cause it ends the request, logs and rejects; without one it does
    nothing. *)
Definition pipeline_callback {V} (cause : option string) (h : Handshake V)
  : Handshake V :=
  match cause with
  | Some c =>
      {| console := (console h ++ [("Gzip error", Some (error_arg c))])%list;
         promise :=
           reject (LoggerError "Failed to create gzip stream"
                     (Some (SystemError c))) (promise h);
         ended := true;
         unhandled := unhandled h |}
  | None => h
  end.

(** What the runtime may call while the constructor's closure is alive: a
    request listener, or the pipeline callback. *)
Inductive Callback : Type :=
| on_request (e : ReqEvent)
| on_pipeline (cause : option string).

Definition call {V} (c : Callback) (h : Handshake V) : Handshake V :=
  match c with
  | on_request e => listener e h
  | on_pipeline cause => pipeline_callback cause h
  end.

(** [Logger(url, secret)] and what follows.  When [http.request] throws,
    the executor ends there: no callback is ever registered and
    [resolve(write)] is never reached.  Otherwise: the callbacks before
    the grace period is over, [resolve(write)], the callbacks after it. *)
Definition timeline {V} (protocol_of : string -> option string)
           (url secret : string) (write : V) (early late : list Callback)
  : Handshake V :=
  match http_request_error protocol_of url (Logger_options secret) with
  | Some e =>
      {| console := []; promise := Pending; ended := false;
         unhandled := Some e |}
  | None =>
      let h := fold_left (fun h c => call c h) early
                 {| console := []; promise := Pending; ended := false;
                    unhandled := None |} in
      fold_left (fun h c => call c h) late
        {| console := console h; promise := resolve write (promise h);
           ended := ended h; unhandled := unhandled h |}
  end.

(** The console line of a callback, when it writes one. *)
Definition lines_of (c : Callback) : list ConsoleLine :=
  match c with
  | on_request e => [line_of e]
  | on_pipeline (Some cause) => [("Gzip error", Some (error_arg cause))]
  | on_pipeline None => []
  end.

(** What a callback passes to [reject], when it calls it. *)
Definition rejection_of (c : Callback) : option Exn :=
  match c with
  | on_request e => Some (error_of e)
  | on_pipeline (Some cause) =>
      Some (LoggerError "Failed to create gzip stream" (Some (SystemError cause)))
  | on_pipeline None => None
  end.

Fixpoint first_rejection (cs : list Callback) : option Exn :=
  match cs with
  | [] => None
  | c :: rest =>
      match rejection_of c with
      | Some x => Some x
      | None => first_rejection rest
      end
  end.

End Http.

(* ------------------------------------------------------------------ *)
(** ** The entry point of [src/lib/index.ts], lines 125-180 *)

Module Main.

(** The variables of [process.env] the program reads. *)
Record Env : Type := mkEnv {
  UUID : option string;
  API_KEY : option string;
  API_ENDPOINT : option string;
  INITIAL_DELAY : option string;
  SERVICE_ID : option string
}.

(** [ToBoolean] on a string or [undefined]: the empty string is falsy. *)
Definition truthy (v : option string) : bool :=
  match v with
  | Some (String _ _) => true
  | _ => false
  end.

(** [v || d]. *)
Definition or_else (v : option string) (d : string) : string :=
  match v with
  | Some (String c r) => String c r
  | _ => d
  end.

(** A number of the program, as far as it is followed: [NaN], an integer
    a double holds exactly (at most [2 ^ 53] in magnitude), or a value
    beyond that range, where doubles round and which is not followed any
    further.  The two zeros are not told apart: they print, serialise and
    add alike. *)
Inductive Num : Type :=
| NaN
| Int (z : Z)
| Beyond.

Definition MAX_EXACT : Z := 2 ^ 53.

(** The number an integer result [z] is kept as. *)
Definition exact (z : Z) : Num :=
  if (Z.abs z <=? MAX_EXACT)%Z then Int z else Beyond.

(** [x + 1] and [x * 1000] on numbers. *)
Definition increment (x : Num) : Num :=
  match x with
  | NaN => NaN
  | Int z => exact (z + 1)
  | Beyond => Beyond
  end.

Definition times_1000 (x : Num) : Num :=
  match x with
  | NaN => NaN
  | Int z => exact (z * 1000)
  | Beyond => Beyond
  end.

(** [String(x)], where the number is followed. *)
Definition NumToString (n : Num) : option string :=
  match n with
  | NaN => Some "NaN"
  | Int z => Some (NumberToString z)
  | Beyond => None
  end.

(** White space and line terminators among the code units below 256. *)
Definition is_whitespace (c : ascii) : bool :=
  let n := N_of_ascii c in
  ((9 <=? n) && (n <=? 13) || (n =? 32) || (n =? 160))%N.

Definition is_digit (c : ascii) : bool :=
  let n := N_of_ascii c in ((48 <=? n) && (n <=? 57))%N.

Fixpoint trim_start (s : string) : string :=
  match s with
  | EmptyString => ""
  | String c r => if is_whitespace c then trim_start r else s
  end.

Fixpoint trim_end (s : string) : string :=
  match s with
  | EmptyString => ""
  | String c r =>
      match trim_end r with
      | EmptyString => if is_whitespace c then "" else String c ""
      | r' => String c r'
      end
  end.

(** [s.trim()]. *)
Definition trim (s : string) : string := trim_end (trim_start s).

Fixpoint leading_digits (s : string) : string :=
  match s with
  | EmptyString => ""
  | String c r => if is_digit c then String c (leading_digits r) else ""
  end.

(** The value of a string of decimal digits. *)
Definition digits_value (ds : string) : N :=
  match NilEmpty.uint_of_string ds with
  | Some d => N.of_uint d
  | None => 0
  end.

(** [parseInt(s, 10)]: leading white space is skipped, a sign is read,
    then the longest run of digits; [NaN] when there is none.  The result
    is a double: the integer read, where a double holds it. *)
Definition parseInt (s : string) : Num :=
  let s := trim_start s in
  let '(negative, s) :=
    match s with
    | String c r =>
        if Ascii.eqb c "-" then (true, r)
        else if Ascii.eqb c "+" then (false, r)
        else (false, s)
    | EmptyString => (false, "")
    end in
  match leading_digits s with
  | EmptyString => NaN
  | ds =>
      exact (if negative then (- Z.of_N (digits_value ds))%Z
             else Z.of_N (digits_value ds))
  end.

(** Whether a text starts, after white space, with a digit or with a sign
    and a digit. *)
Definition starts_with_number (s : string) : bool :=
  match trim_start s with
  | EmptyString => false
  | String c r =>
      if is_digit c then true
      else if Ascii.eqb c "-" || Ascii.eqb c "+" then
        match r with
        | String d _ => is_digit d
        | EmptyString => false
        end
      else false
  end.

(** [s.split(sep)] for a one-character separator. *)
Fixpoint split (sep : ascii) (s : string) : list string :=
  match s with
  | EmptyString => [""]
  | String c r =>
      if Ascii.eqb c sep then "" :: split sep r
      else match split sep r with
           | x :: xs => String c x :: xs
           | [] => [String c ""]
           end
  end.

Definition nonempty (s : string) : bool :=
  match s with EmptyString => false | _ => true end.

(** Lines 144-148: the service ids of [SERVICE_ID]. *)
Definition serviceIds (env : Env) : list Num :=
  match SERVICE_ID env with
  | Some (String c r) =>
      map (fun s => parseInt (trim s))
          (filter nonempty (split "," (String c r)))
  | _ => []
  end.

(** What the module level leaves behind: it throws, which ends the
    process with the message, or it goes on with its constants. *)
Inductive Outcome (A : Type) : Type :=
| Exit (message : string)
| Started (a : A).
Arguments Exit {A} message.
Arguments Started {A} a.

Record Constants : Type := mkConstants {
  uuid : string;
  api_key : string;
  LOG_STREAM : string;
  initial_delay : Num
}.

(** Line 141: [parseInt(process.env.INITIAL_DELAY || '0', 10)]. *)
Definition initial_delay_of (env : Env) : Num :=
  parseInt (or_else (INITIAL_DELAY env) "0").

(** Lines 125-141. *)
Definition constants (env : Env) : Outcome Constants :=
  if negb (truthy (UUID env)) then
    Exit "Please provide a UUID environment variable with the device identifier"
  else if negb (truthy (API_KEY env)) then
    Exit "Please provide an API_KEY environment variable with the device credentials"
  else
    let u := or_else (UUID env) "" in
    Started
      {| uuid := u;
         api_key := or_else (API_KEY env) "";
         LOG_STREAM :=
           or_else (API_ENDPOINT env) "https://api.balena-cloud.com"
           ++ "/device/v2/" ++ u ++ "/log-stream";
         initial_delay := initial_delay_of env |}.

(** Line 143: the constructor is called with the stream url and the key.
    [protocol_of] is the URL parser of the runtime, as for
    [Index.https_request_error]. *)
Definition start (protocol_of : string -> option string) (env : Env)
  : Outcome Index.Process :=
  match constants env with
  | Exit m => Exit m
  | Started c =>
      Started (Index.Logger_call protocol_of (LOG_STREAM c) (api_key c))
  end.

(** The object literals passed to [log]. *)
Record Entry : Type := mkEntry {
  message : string;
  timestamp : Z;
  serviceId : option Num;
  isSystem : bool;
  isStdErr : bool
}.

(** The two [let] variables of the loop. *)
Record Loop : Type := mkLoop {
  count : Num;
  delay : Num
}.

(** What [new Date()] gives an iteration: [toUTCString()] and
    [valueOf()]. *)
Record Clock : Type := mkClock {
  utc : string;
  millis : Z
}.

(** One turn of the [while (true)] body: the line printed, the entries
    logged, the argument of [sleep], and the variables afterwards. *)
Record Turn : Type := mkTurn {
  printed : string;
  logged : list Entry;
  slept : Num;
  after : Loop
}.

(** A turn is followed as long as the two numbers it prints are. *)
Definition turn (ids : list Num) (now : Clock) (l : Loop) : option Turn :=
  let delay' := increment (delay l) in
  match NumToString (count l), NumToString delay' with
  | Some number, Some shown =>
      let message :=
        utc now ++ " - Test message No. " ++ number
        ++ ". Next message in " ++ shown ++ "(s)" in
      Some
        {| printed := message;
           logged :=
             match ids with
             | [] =>
                 [ {| message := message; timestamp := millis now;
                      serviceId := None; isSystem := true; isStdErr := false |} ]
             | _ =>
                 map (fun id =>
                        {| message := message; timestamp := millis now;
                           serviceId := Some id;
                           isSystem := false; isStdErr := false |}) ids
             end;
           slept := times_1000 delay';
           after := {| count := increment (count l); delay := delay' |} |}
  | _, _ => None
  end.

(** The turns taken at the given clocks, in order, from [l], and the
    variables after them. *)
Fixpoint turns (ids : list Num) (clocks : list Clock) (l : Loop)
  : option (list Turn * Loop) :=
  match clocks with
  | [] => Some ([], l)
  | now :: rest =>
      match turn ids now l with
      | None => None
      | Some t =>
          match turns ids rest (after t) with
          | None => None
          | Some (ts, l') => Some (t :: ts, l')
          end
      end
  end.


(** A string of decimal digits. *)
Fixpoint all_digits (s : string) : bool :=
  match s with
  | EmptyString => true
  | String c r => is_digit c && all_digits r
  end.

(** [" ".repeat(n)]. *)
Fixpoint spaces (n : nat) : string :=
  match n with
  | O => ""
  | S k => String " " (spaces k)
  end.

(** An entry of a [SERVICE_ID] list as a user may write it: nothing
    between two commas, or an id with blanks around it. *)
Definition entry_text (o : option (nat * N * nat)) : string :=
  match o with
  | None => ""
  | Some (a, n, b) => spaces a ++ NatToString n ++ spaces b
  end.

Definition entry_id (o : option (nat * N * nat)) : list Num :=
  match o with
  | None => []
  | Some (_, n, _) => [Int (Z.of_N n)]
  end.

End Main.
Example stringify_sample :
  JSON_stringify [("message", JsString "a"); ("n", JsNumber (-12)%Z);
                  ("skip", JsUndefined); ("l", JsArray [JsNull; JsUndefined])]
  = Normal ("{" ++ dq ++ "message" ++ dq ++ ":" ++ dq ++ "a" ++ dq ++ ","
            ++ dq ++ "n" ++ dq ++ ":-12,"
            ++ dq ++ "l" ++ dq ++ ":[null,null]}").
Proof. reflexivity. Qed.

Example escape_sample :
  escape_string (String nl (String dquote "a\")) = "\n\" ++ dq ++ "a\\".
Proof. reflexivity. Qed.

Example split_lines_sample :
  split_lines ("ab" ++ newline ++ newline ++ "c") = ["ab"; ""; "c"].
Proof. reflexivity. Qed.


(* ------------------------------------------------------------------ *)
(** ** Strings: newlines, escapes, lines *)

Section StringFacts.

Lemma has_char_app (c : ascii) (a b : string) :
  has_char c (a ++ b) = has_char c a || has_char c b.
Proof.
  induction a as [|d a IH]; simpl.
  - reflexivity.
  - rewrite IH. now rewrite orb_assoc.
Qed.

Lemma append_assoc (a b c : string) : (a ++ b) ++ c = a ++ (b ++ c).
Proof. induction a as [|d a IH]; simpl; [reflexivity | now rewrite IH]. Qed.

Lemma append_nil_r (a : string) : a ++ "" = a.
Proof. induction a as [|d a IH]; simpl; [reflexivity | now rewrite IH]. Qed.

Lemma escape_char_no_newline (c : ascii) : has_char nl (escape_char c) = false.
Proof. destruct c as [[] [] [] [] [] [] [] []]; reflexivity. Qed.

Lemma escape_string_no_newline (s : string) :
  has_char nl (escape_string s) = false.
Proof.
  induction s as [|c s IH]; simpl.
  - reflexivity.
  - now rewrite has_char_app, escape_char_no_newline, IH.
Qed.

Lemma QuoteJSONString_no_newline (s : string) :
  has_char nl (QuoteJSONString s) = false.
Proof.
  unfold QuoteJSONString.
  now rewrite !has_char_app, escape_string_no_newline.
Qed.

Lemma escape_string_app (a b : string) :
  escape_string (a ++ b) = escape_string a ++ escape_string b.
Proof.
  induction a as [|c a IH]; simpl.
  - reflexivity.
  - now rewrite IH, append_assoc.
Qed.

Lemma escape_char_plain (c : ascii) : plain c = true -> escape_char c = String c "".
Proof. destruct c as [[] [] [] [] [] [] [] []]; (reflexivity || discriminate). Qed.

Lemma escape_string_plain (s : string) :
  all_plain s = true -> escape_string s = s.
Proof.
  induction s as [|c s IH]; simpl; intros H.
  - reflexivity.
  - apply andb_true_iff in H as [Hc Hs].
    now rewrite (escape_char_plain c Hc), (IH Hs).
Qed.

Lemma plain_no_newline (s : string) : all_plain s = true -> has_char nl s = false.
Proof.
  induction s as [|c s IH]; simpl; intros H.
  - reflexivity.
  - apply andb_true_iff in H as [Hc Hs]. rewrite (IH Hs), orb_false_r.
    destruct c as [[] [] [] [] [] [] [] []]; (reflexivity || discriminate).
Qed.

Lemma all_plain_app (a b : string) :
  all_plain (a ++ b) = all_plain a && all_plain b.
Proof.
  induction a as [|c a IH]; simpl; [reflexivity|].
  now rewrite IH, andb_assoc.
Qed.

Lemma string_of_uint_plain (d : Decimal.uint) :
  all_plain (NilEmpty.string_of_uint d) = true.
Proof. induction d; simpl; auto. Qed.

Lemma NatToString_plain (n : N) : all_plain (NatToString n) = true.
Proof.
  unfold NatToString, NilZero.string_of_uint.
  destruct (N.to_uint n); try reflexivity; apply string_of_uint_plain.
Qed.

Lemma NumberToString_plain (z : Z) : all_plain (NumberToString z) = true.
Proof.
  destruct z; simpl; try reflexivity; apply NatToString_plain.
Qed.

Lemma split_lines_line (l rest : string) :
  has_char nl l = false ->
  split_lines (l ++ newline ++ rest) = l :: split_lines rest.
Proof.
  induction l as [|c l IH]; intros H.
  - reflexivity.
  - cbn [has_char] in H. apply orb_false_iff in H as [Hc Hl].
    cbn [append split_lines]. rewrite Hc.
    change (String nl rest) with (newline ++ rest).
    now rewrite (IH Hl).
Qed.

Lemma has_substring_app_l (x a b : string) :
  has_substring x b = true -> has_substring x (a ++ b) = true.
Proof.
  induction a as [|c a IH]; simpl; intros H.
  - exact H.
  - rewrite (IH H). apply orb_true_r.
Qed.

Lemma prefix_app (x b : string) : String.prefix x (x ++ b) = true.
Proof.
  induction x as [|c x IH]; simpl.
  - now destruct b.
  - destruct (ascii_dec c c) as [_|n]; [exact IH | now elim n].
Qed.

Lemma has_substring_here (x b : string) : has_substring x (x ++ b) = true.
Proof.
  pose proof (prefix_app x b) as H.
  destruct (x ++ b); cbn [has_substring]; now rewrite H.
Qed.

End StringFacts.

(* ------------------------------------------------------------------ *)
(** ** [JSON.stringify] never prints a line break *)

Section Serializer.

Lemma JsValue_nested_ind (P : JsValue -> Prop) :
  P JsUndefined -> P JsNull ->
  (forall b, P (JsBool b)) -> (forall z, P (JsNumber z)) ->
  (forall z, P (JsBigInt z)) -> (forall s, P (JsString s)) ->
  (forall l, Forall P l -> P (JsArray l)) ->
  (forall l, Forall (fun kv => P (snd kv)) l -> P (JsObject l)) ->
  forall v, P v.
Proof.
  intros Hu Hn Hb Hz Hbig Hs Harr Hobj.
  fix IH 1.
  intros [ | | b | z | z | s | l | l];
    [exact Hu | exact Hn | apply Hb | apply Hz | apply Hbig | apply Hs | | ].
  - apply Harr.
    induction l as [|x l IHl]; constructor; [apply IH | exact IHl].
  - apply Hobj.
    induction l as [|[k x] l IHl]; constructor; [apply IH | exact IHl].
Qed.

Lemma map_completion_Forall {A B} (f : A -> Completion B)
      (P : A -> Prop) (Q : B -> Prop) :
  (forall a b, P a -> f a = Normal b -> Q b) ->
  forall l bs, Forall P l -> map_completion f l = Normal bs -> Forall Q bs.
Proof.
  intros Hf l. induction l as [|a l IH]; intros bs HP H; simpl in H.
  - inversion H. constructor.
  - inversion HP as [|? ? Pa Pl]; subst.
    destruct (f a) as [b|e] eqn:Ea; [|discriminate].
    destruct (map_completion f l) as [bs'|e] eqn:El; [|discriminate].
    inversion H; subst. constructor; eauto.
Qed.

Lemma join_no_newline (sep : string) (parts : list string) :
  has_char nl sep = false ->
  Forall (fun p => has_char nl p = false) parts ->
  has_char nl (join sep parts) = false.
Proof.
  intros Hsep H. induction H as [|p parts Hp Hparts IH]; simpl.
  - reflexivity.
  - destruct parts as [|q parts]; [exact Hp|].
    now rewrite !has_char_app, Hp, Hsep, IH.
Qed.

Lemma SerializeJSONProperty_no_newline (v : JsValue) :
  forall o, SerializeJSONProperty v = Normal o ->
            has_char nl (element_text o) = false.
Proof.
  induction v as [ | | b | z | z | s | l IH | l IH] using JsValue_nested_ind;
    intros o H; simpl in H.
  - now inversion H.
  - now inversion H.
  - inversion H. now destruct b.
  - inversion H. apply plain_no_newline, NumberToString_plain.
  - discriminate.
  - inversion H. apply QuoteJSONString_no_newline.
  - destruct (map_completion SerializeJSONProperty l) as [os|e] eqn:E;
      [|discriminate].
    inversion H; subst; clear H. simpl.
    rewrite has_char_app, join_no_newline; [reflexivity | reflexivity |].
    apply Forall_map.
    eapply (map_completion_Forall SerializeJSONProperty); [| exact IH | exact E].
    intros a b Pa Hb. now apply Pa.
  - match type of H with
    | match map_completion ?f l with _ => _ end = _ =>
        destruct (map_completion f l) as [kos|e] eqn:E; [|discriminate]
    end.
    inversion H; subst; clear H. simpl.
    rewrite has_char_app, join_no_newline; [reflexivity | reflexivity |].
    assert (Hk : Forall (fun ko : string * option string =>
                           has_char nl (element_text (snd ko)) = false) kos).
    { eapply map_completion_Forall; [| exact IH | exact E].
      intros [k x] b Px Hb. simpl in Px.
      destruct (SerializeJSONProperty x) as [o|e] eqn:Ex; [|discriminate].
      inversion Hb; subst. simpl. now apply Px. }
    clear E IH. induction Hk as [|[k o] kos Hko Hkos IHk]; simpl.
    + constructor.
    + apply Forall_app. split; [|exact IHk].
      destruct o as [t|]; unfold member_text; cbn [snd fst]; [|constructor].
      constructor; [|constructor]. cbn [snd element_text] in Hko.
      now rewrite !has_char_app, QuoteJSONString_no_newline, Hko.
Qed.

Lemma JSON_stringify_no_newline (msg : LogMessage) (line : string) :
  JSON_stringify msg = Normal line -> has_char nl line = false.
Proof.
  unfold JSON_stringify. intros H.
  destruct (SerializeJSONProperty (JsObject msg)) as [[s|]|e] eqn:E;
    inversion H; subst; [|reflexivity].
  exact (SerializeJSONProperty_no_newline _ _ E).
Qed.

End Serializer.

(* ------------------------------------------------------------------ *)
(** ** [write] and the ['drain'] listener on a session *)

Section Writer.

Import Index.

(** The three ways a call of [write] can go. *)
Lemma write_dropped (msg : LogMessage) (s : Session) :
  writable s = false ->
  write msg s =
  (Normal tt, {| writable := false; dropCount := dropCount s + 1;
                 gzip := gzip s; console := console s |}).
Proof.
  intros H. unfold write, bind, get_writable, get_dropCount, set_dropCount.
  cbv beta iota. rewrite H. cbv beta iota. now rewrite ?H.
Qed.

Lemma write_caught (msg : LogMessage) (s : Session) (e : Exn) :
  writable s = true ->
  JSON_stringify msg = Throw e ->
  write msg s =
  (Normal tt,
   {| writable := writable s; dropCount := dropCount s; gzip := gzip s;
      console :=
        (console s ++
         [console_error_entry
            "Failed to write to logging stream, dropping message" e])%list |}).
Proof.
  intros Hw He.
  unfold write, bind, get_writable, try_catch, lift, console_error.
  cbv beta iota. rewrite Hw. cbv beta iota. rewrite He. cbv beta iota.
  now rewrite ?Hw.
Qed.

Lemma write_forwarded (msg : LogMessage) (s : Session) (line : string) :
  writable s = true ->
  JSON_stringify msg = Normal line ->
  write msg s =
  (Normal tt,
   {| writable := fst (gzip_write (line ++ newline) (gzip s));
      dropCount := dropCount s;
      gzip := gzip_flush None (snd (gzip_write (line ++ newline) (gzip s)));
      console := console s |}).
Proof.
  intros Hw Hl.
  unfold write, bind, get_writable, try_catch, lift, gzip_write_m,
    set_writable, gzip_flush_m.
  cbv beta iota. rewrite Hw, Hl.
  destruct (gzip_write (line ++ newline) (gzip s)) as [r g]. reflexivity.
Qed.

Lemma write_completes (msg : LogMessage) (s : Session) :
  fst (write msg s) = Normal tt.
Proof.
  destruct (writable s) eqn:Hw.
  - destruct (JSON_stringify msg) as [line|e] eqn:E.
    + now rewrite (write_forwarded msg s line Hw E).
    + now rewrite (write_caught msg s e Hw E).
  - now rewrite (write_dropped msg s Hw).
Qed.

Lemma accepted_gzip_write (chunk : string) (g : Gzip) :
  accepted (input (snd (gzip_write chunk g))) =
  (accepted (input g) ++ [chunk])%list.
Proof.
  unfold gzip_write, stream_write, accepted. simpl.
  now rewrite app_assoc.
Qed.

Lemma write_all_dropped (msgs : list LogMessage) (s : Session) :
  writable s = false ->
  write_all msgs s =
  {| writable := false;
     dropCount := dropCount s + N.of_nat (List.length msgs);
     gzip := gzip s; console := console s |}.
Proof.
  revert s. induction msgs as [|m msgs IH]; intros s H.
  - destruct s as [w d g c]. simpl in *. subst w. f_equal. lia.
  - unfold write_all in *. cbn [fold_left].
    rewrite (write_dropped m s H). cbn [snd].
    rewrite IH by reflexivity. cbn [dropCount gzip console List.length].
    f_equal. lia.
Qed.

End Writer.

Section WarningRecord.

Import Index.

Lemma QuoteJSONString_plain (s : string) :
  all_plain s = true -> QuoteJSONString s = dq ++ s ++ dq.
Proof. intros H. unfold QuoteJSONString. now rewrite escape_string_plain. Qed.

Lemma warning_message_plain (n : N) :
  all_plain ("Warning: Suppressed " ++ NatToString n
             ++ " message(s) due to high load") = true.
Proof.
  rewrite !all_plain_app, NatToString_plain. reflexivity.
Qed.

Lemma stringify_warning (n : N) (now : Z) :
  JSON_stringify (warning n now) = Normal (warning_line n now).
Proof.
  unfold JSON_stringify, warning.
  cbn [SerializeJSONProperty map_completion].
  cbv [flat_map member_text List.app join fst snd].
  rewrite !QuoteJSONString_plain
    by first [reflexivity | apply warning_message_plain].
  unfold warning_line. f_equal.
  repeat first [rewrite !append_assoc | progress cbn [append]].
  reflexivity.
Qed.

Lemma has_substring_middle (x a b : string) :
  has_substring x (a ++ x ++ b) = true.
Proof. apply has_substring_app_l, has_substring_here. Qed.

Lemma warning_line_states_count (n : N) (now : Z) :
  has_substring
    ("Suppressed " ++ NatToString n ++ " message(s) due to high load")
    (warning_line n now) = true.
Proof.
  replace (warning_line n now) with
    (("{" ++ dq ++ "message" ++ dq ++ ":" ++ dq ++ "Warning: ")
     ++ ("Suppressed " ++ NatToString n ++ " message(s) due to high load")
     ++ (dq ++ "," ++ dq ++ "timestamp" ++ dq ++ ":" ++ NumberToString now
         ++ "," ++ dq ++ "isSystem" ++ dq ++ ":true,"
         ++ dq ++ "isStdErr" ++ dq ++ ":true}")).
  - apply has_substring_middle.
  - unfold warning_line.
    repeat first [rewrite !append_assoc | progress cbn [append]].
    reflexivity.
Qed.

End WarningRecord.

(* ------------------------------------------------------------------ *)
(** ** Properties of the writer *)

Section WriterProperties.

Import Index.

(** C6.  While the writability flag is [false], a call of [write] pushes
    nothing into the sink: the call completes, the compressor and the
    console are untouched, the record is discarded, and the drop counter
    goes up by exactly one; over any run of such calls the counter goes up
    by their number.  In the process, such a call changes the session's
    counter and nothing else: no request is written to. *)
Theorem write_while_unwritable_only_counts :
  forall (msg : LogMessage) (msgs : list LogMessage) (s : Session),
    writable s = false ->
    write msg s =
      (Normal tt, {| writable := false; dropCount := dropCount s + 1;
                     gzip := gzip s; console := console s |})
    /\ write_all msgs s =
       {| writable := false;
          dropCount := dropCount s + N.of_nat (List.length msgs);
          gzip := gzip s; console := console s |}
    /\ (forall p : Process,
          session p = s ->
          uncaught p = None ->
          promise p = Fulfilled write ->
          step (Call msg) p =
          {| requests := requests p; promise := promise p;
             uncaught := None;
             session := {| writable := false; dropCount := dropCount s + 1;
                           gzip := gzip s; console := console s |};
             timer := timer p |}).
Proof.
  intros msg msgs s H. split; [| split].
  - now apply write_dropped.
  - now apply write_all_dropped.
  - intros p Hs Hu Hp. unfold step. rewrite Hu, Hp, Hs.
    rewrite (write_dropped msg s H). unfold with_session. cbn [fst snd].
    now rewrite Hu, Hp.
Qed.

(** C10.  When [JSON.stringify] throws inside [write], the call changes
    nothing but the console: the flag keeps its value, the counter is not
    incremented, the compressor is given nothing and is not flushed. *)
Theorem write_serialization_failure_leaves_state :
  forall (msg : LogMessage) (s : Session) (e : Exn),
    writable s = true ->
    JSON_stringify msg = Throw e ->
    write msg s =
      (Normal tt,
       {| writable := writable s; dropCount := dropCount s; gzip := gzip s;
          console :=
            (console s ++
             [console_error_entry
                "Failed to write to logging stream, dropping message" e])%list |}).
Proof. intros msg s e Hw He. now apply write_caught. Qed.

(** C5.  [write] never raises: every call completes normally.  A record
    whose serialization throws is caught and logged, leaves the flag, the
    counter and the compressor as they were, and the next valid record is
    then forwarded as its line; in the process, such a call leaves no
    uncaught exception and the promise stays fulfilled. *)
Theorem write_never_raises :
  (forall (msg : LogMessage) (s : Session), fst (write msg s) = Normal tt)
  /\ (forall (bad good : LogMessage) (s : Session) (e : Exn) (line : string),
        writable s = true ->
        JSON_stringify bad = Throw e ->
        JSON_stringify good = Normal line ->
        let s1 := snd (write bad s) in
        writable s1 = true /\ dropCount s1 = dropCount s /\ gzip s1 = gzip s
        /\ console s1 =
           (console s ++
            [console_error_entry
               "Failed to write to logging stream, dropping message" e])%list
        /\ accepted (input (gzip (snd (write good s1)))) =
           (accepted (input (gzip s)) ++ [(line ++ newline)%string])%list)
  /\ (forall (msg : LogMessage) (p : Process),
        uncaught p = None ->
        promise p = Fulfilled write ->
        uncaught (step (Call msg) p) = None
        /\ promise (step (Call msg) p) = Fulfilled write).
Proof.
  split; [exact write_completes | split].
  - intros bad good s e line Hw Hbad Hgood s1. subst s1.
    rewrite (write_caught bad s e Hw Hbad).
    cbn [snd writable dropCount gzip console].
    repeat split; try assumption.
    rewrite (write_forwarded good _ line) by (cbn [writable]; assumption).
    cbn [snd gzip]. unfold gzip_flush. cbn [input].
    apply accepted_gzip_write.
  - intros msg p Hu Hp. unfold step. rewrite Hu, Hp.
    unfold with_session. cbn [uncaught promise].
    rewrite write_completes. now split.
Qed.

(** C2.  After exactly [N >= 1] calls of [write] made while the flag is
    [false] (the counter being 0 when the flag went down), the ['drain']
    listener pushes exactly one chunk, the line of the warning record for
    count [N]: its message contains "Suppressed N message(s) due to high
    load", and [isSystem] and [isStdErr] are [true].  The dropped records
    reached neither the compressor nor the console, and the counter is 0
    afterwards. *)
Theorem drain_reports_suppressed_count :
  forall (msgs : list LogMessage) (s : Session) (now : Z),
    writable s = false ->
    dropCount s = 0%N ->
    msgs <> [] ->
    let n := N.of_nat (List.length msgs) in
    let s1 := write_all msgs s in
    let s2 := snd (on_drain now s1) in
    gzip s1 = gzip s /\ console s1 = console s /\ dropCount s1 = n
    /\ fst (on_drain now s1) = Normal tt
    /\ accepted (input (gzip s2)) =
       (accepted (input (gzip s)) ++ [(warning_line n now ++ newline)%string])%list
    /\ JSON_stringify (warning n now) = Normal (warning_line n now)
    /\ has_substring
         ("Suppressed " ++ NatToString n ++ " message(s) due to high load")
         (warning_line n now) = true
    /\ In ("isSystem", JsBool true) (warning n now)
    /\ In ("isStdErr", JsBool true) (warning n now)
    /\ dropCount s2 = 0%N.
Proof.
  intros msgs s now Hw Hd Hne n s1 s2.
  assert (Hn : (0 <? n)%N = true).
  { apply N.ltb_lt. subst n. destruct msgs; [congruence | simpl; lia]. }
  assert (Hs1 : s1 = {| writable := false; dropCount := n;
                        gzip := gzip s; console := console s |}).
  { subst s1 n. rewrite (write_all_dropped msgs s Hw), Hd. reflexivity. }
  assert (Hrun : on_drain now s1 =
                 (Normal tt,
                  {| writable :=
                       fst (gzip_write (warning_line n now ++ newline) (gzip s));
                     dropCount := 0;
                     gzip :=
                       gzip_flush None
                         (gzip_flush None
                            (snd (gzip_write (warning_line n now ++ newline)
                                    (gzip s))));
                     console := console s |})).
  { rewrite Hs1. unfold on_drain, bind, set_writable, get_dropCount.
    cbv beta iota. cbn [writable dropCount gzip console]. rewrite Hn.
    cbv beta iota.
    rewrite (write_forwarded (warning n now) _ (warning_line n now))
      by (try reflexivity; apply stringify_warning).
    reflexivity. }
  subst s2. rewrite Hrun, Hs1. cbn [fst snd gzip console dropCount].
  repeat split.
  - unfold gzip_flush. cbn [input]. apply accepted_gzip_write.
  - apply stringify_warning.
  - apply warning_line_states_count.
  - simpl. auto.
  - simpl. auto.
Qed.

End WriterProperties.

(* ------------------------------------------------------------------ *)
(** ** The event loop of [index.ts] *)

Section EventLoop.

Import Index.

Lemma run_app (evs1 evs2 : list (N * Event)) (p : Process) :
  run (evs1 ++ evs2) p = run evs2 (run evs1 p).
Proof. unfold run. apply fold_left_app. Qed.

Lemma run_cons (te : N * Event) (evs : list (N * Event)) (p : Process) :
  run (te :: evs) p = run evs (deliver te p).
Proof. reflexivity. Qed.

Lemma step_dead (ev : Event) (p : Process) (e : Exn) :
  uncaught p = Some e -> step ev p = p.
Proof. intros H. unfold step. now rewrite H. Qed.

Lemma fire_timer_dead (t : N) (p : Process) (e : Exn) :
  uncaught p = Some e -> fire_timer t p = p.
Proof. intros H. unfold fire_timer. now rewrite H. Qed.

Lemma run_dead (evs : list (N * Event)) (p : Process) (e : Exn) :
  uncaught p = Some e -> run evs p = p.
Proof.
  revert p. induction evs as [|te evs IH]; intros p H.
  - reflexivity.
  - rewrite run_cons. unfold deliver.
    rewrite (fire_timer_dead _ _ _ H), (step_dead _ _ _ H). now apply IH.
Qed.

Lemma fire_timer_idle (t : N) (p : Process) :
  timer p = None -> fire_timer t p = p.
Proof. intros H. unfold fire_timer. rewrite H. now destruct (uncaught p). Qed.

(** Before the deadline nothing but a request event changes the freshly
    constructed process. *)
Lemma deliver_before_deadline (url secret : string) (te : N * Event) :
  (fst te < RESPONSE_GRACE_PERIOD)%N ->
  is_terminal (snd te) = false ->
  deliver te (Logger url secret) = Logger url secret.
Proof.
  destruct te as [t ev]. cbn [fst snd]. intros Ht Hq. unfold deliver.
  cbn [fst snd].
  assert (Hf : fire_timer t (Logger url secret) = Logger url secret).
  { unfold fire_timer. cbn [uncaught timer Logger].
    apply N.leb_gt in Ht. now rewrite Ht. }
  rewrite Hf. destruct ev as [e | msg | now]; [discriminate | |]; reflexivity.
Qed.

Lemma run_before_deadline (url secret : string) (pre : list (N * Event)) :
  (forall te, In te pre -> (fst te < RESPONSE_GRACE_PERIOD)%N) ->
  quiet pre = true ->
  run pre (Logger url secret) = Logger url secret.
Proof.
  induction pre as [|te pre IH]; intros Ht Hq.
  - reflexivity.
  - cbn [quiet forallb] in Hq. apply andb_true_iff in Hq as [Hq1 Hq2].
    rewrite run_cons, deliver_before_deadline.
    + apply IH; [intros x Hx; apply Ht; now right | exact Hq2].
    + apply Ht. now left.
    + now apply negb_true_iff in Hq1.
Qed.

Lemma fire_timer_at_deadline (url secret : string) (T : N) :
  (RESPONSE_GRACE_PERIOD <= T)%N ->
  fire_timer T (Logger url secret) =
  {| requests := requests (Logger url secret);
     promise := Fulfilled write;
     uncaught := None;
     session := session (Logger url secret);
     timer := None |}.
Proof.
  intros H. unfold fire_timer. cbn [uncaught timer Logger].
  apply N.leb_le in H. now rewrite H.
Qed.

End EventLoop.

(* ------------------------------------------------------------------ *)
(** ** Properties of the constructor *)

Section Constructor.

Import Index.

(** [https.request] accepts what [Logger] passes exactly when the url is an
    https url and every character of the secret may stand in a header. *)
Lemma https_request_accepts (protocol_of : string -> option string)
      (url secret : string) :
  https_request_error protocol_of url (Logger_options secret) = None
  <-> protocol_of url = Some "https:" /\ header_value_ok secret = true.
Proof.
  unfold https_request_error, request_error.
  destruct (protocol_of url) as [protocol|]; [|split; [discriminate | intros [H _]; discriminate]].
  destruct (String.eqb protocol "https:") eqn:E; cbn [negb].
  - apply String.eqb_eq in E. subst protocol.
    change (header_error (headers (Logger_options secret)))
      with (if negb (header_value_ok secret) then
              Some (TypeError ("Invalid character in header content ["
                               ++ dq ++ "Authorization" ++ dq ++ "]"))
            else None).
    destruct (header_value_ok secret); cbn [negb]; split; auto.
    + intros H; discriminate.
    + intros [_ H]; discriminate.
  - split; [discriminate|]. intros [H _]. injection H as ->.
    now rewrite String.eqb_refl in E.
Qed.

Lemma run_refused (evs : list (N * Event)) (e : Exn) :
  run evs (refused e) = refused e.
Proof. now apply run_dead with (e := e). Qed.

(** C4.  When the head of the request has been flushed -- which is to say
    that [https.request] accepted the url and the secret -- and no request
    event arrives before the grace period of 5000 ms is over, the promise is fulfilled with [write] when
    the timer fires, with nothing uncaught, the flag [true] and the
    counter 0; a call of [write] made at that very moment is forwarded:
    its line is the one chunk the compressor has been given. *)
Theorem construction_succeeds_after_quiet_grace_period :
  forall (protocol_of : string -> option string) (url secret : string)
         (pre : list (N * Event)) (T : N)
         (msg : LogMessage) (line : string),
    map headersSent (requests (Logger_call protocol_of url secret)) = [true] ->
    (forall te, In te pre -> (fst te < RESPONSE_GRACE_PERIOD)%N) ->
    quiet pre = true ->
    (RESPONSE_GRACE_PERIOD <= T)%N ->
    JSON_stringify msg = Normal line ->
    let p := fire_timer T (run pre (Logger_call protocol_of url secret)) in
    let q := run (pre ++ [(T, Call msg)]) (Logger_call protocol_of url secret) in
    RESPONSE_GRACE_PERIOD = 5000%N
    /\ promise p = Fulfilled write
    /\ uncaught p = None
    /\ writable (session p) = true
    /\ dropCount (session p) = 0%N
    /\ uncaught q = None
    /\ accepted (input (gzip (session q))) = [(line ++ newline)%string].
Proof.
  intros protocol_of url secret pre T msg line Hok Ht Hq HT Hl p q.
  subst p q. unfold Logger_call in *.
  destruct (https_request_error protocol_of url (Logger_options secret));
    [discriminate Hok|]. clear Hok.
  rewrite run_app, (run_before_deadline url secret pre Ht Hq).
  rewrite run_cons. unfold deliver. cbn [fst snd run fold_left].
  rewrite (fire_timer_at_deadline url secret T HT).
  repeat split.
  - unfold step. cbn [uncaught promise session with_session].
    now rewrite write_completes.
  - unfold step. cbn [uncaught promise session with_session].
    rewrite (write_forwarded msg _ line) by (try reflexivity; exact Hl).
    reflexivity.
Qed.

(** C8, as the code has it.  The options the constructor passes are a
    POST with the four headers Authorization, Content-Type,
    Content-Encoding and Keep-Alive (timeout=59).  [https.request]
    accepts them with the url exactly when the url is an https url and
    every character of the secret may stand in a header value.  When it
    does, the constructor opens one request and no
    event adds another; the head is the first thing on the wire, sent by
    the constructor itself, and everything after it is body.  When
    [https.request] throws instead, there is no request at all, then or
    later: the promise stays pending and what was thrown ends the
    process. *)
Theorem one_post_request_head_first :
  forall (protocol_of : string -> option string) (url secret : string)
         (evs : list (N * Event)),
    let hs := [ ("Authorization", "Bearer " ++ secret);
                ("Content-Type", "application/x-ndjson");
                ("Content-Encoding", "gzip");
                ("Keep-Alive", "timeout=59") ] in
    let p0 := Logger_call protocol_of url secret in
    method (Logger_options secret) = "POST"
    /\ headers (Logger_options secret) = hs
    /\ (https_request_error protocol_of url (Logger_options secret) = None
        <-> protocol_of url = Some "https:" /\ header_value_ok secret = true)
    /\ match https_request_error protocol_of url (Logger_options secret) with
       | None =>
           (exists r0, requests p0 = [r0] /\ sent r0 = [Head "POST" url hs])
           /\ exists r chunks,
                requests (run evs p0) = [r]
                /\ href r = url
                /\ method (options r) = "POST"
                /\ headers (options r) = hs
                /\ sent r = Head "POST" url hs :: map Body chunks
       | Some e =>
           requests (run evs p0) = []
           /\ promise (run evs p0) = Pending
           /\ uncaught (run evs p0) = Some e
       end.
Proof.
  intros protocol_of url secret evs hs p0.
  split; [reflexivity|]. split; [reflexivity|].
  split; [apply https_request_accepts|].
  subst p0. unfold Logger_call.
  destruct (https_request_error protocol_of url (Logger_options secret))
    as [e|].
  { rewrite run_refused. repeat split. }
  split.
  - eexists. split; reflexivity.
  - assert (H0 : exists r chunks,
               requests (Logger url secret) = [r]
               /\ href r = url /\ method (options r) = "POST"
               /\ headers (options r) = hs
               /\ sent r = Head "POST" url hs :: map Body chunks).
    { eexists. exists []. repeat split; reflexivity. }
    revert H0. generalize (Logger url secret) as p.
    induction evs as [|[t ev] evs IH]; intros p H0.
    + exact H0.
    + rewrite run_cons. apply IH. clear IH.
      destruct H0 as (r & chunks & Hr & Hu & Hm & Hh & Hs).
      assert (Hf : requests (fire_timer t p) = [r]).
      { unfold fire_timer. destruct (uncaught p), (timer p) as [d|];
          try exact Hr. now destruct (d <=? t)%N. }
      unfold deliver. cbn [fst snd]. revert Hf.
      generalize (fire_timer t p) as p'. intros p' Hf.
      unfold step. destruct (uncaught p').
      { exists r, chunks. auto. }
      destruct ev as [e | msg | now].
      * exists r, chunks. auto.
      * destruct (promise p'); exists r, chunks; auto.
      * destruct (gzip_consume (gzip (session p'))) as [[c drain] g].
        assert (Hw : exists chunks',
                   pipe_chunk c (requests p') =
                   [ {| href := url; options := options r;
                        sent := Head "POST" url hs :: map Body chunks' |} ]).
        { rewrite Hf. destruct c as [c|]; cbn [pipe_chunk].
          - exists (chunks ++ [c])%list. unfold request_write, flushHeaders,
              headersSent. rewrite Hs, Hu. cbn [sent].
            now rewrite map_app, app_comm_cons, Hs.
          - exists chunks. destruct r as [h o w]. cbn in *. now subst. }
        destruct Hw as [chunks' Hw].
        exists {| href := url; options := options r;
                  sent := Head "POST" url hs :: map Body chunks' |}, chunks'.
        destruct drain; cbn [requests with_session]; rewrite Hw; auto.
Qed.

Lemma write_keeps_highWaterMark (msg : LogMessage) (s : Session) :
  highWaterMark (input (gzip (snd (write msg s)))) =
  highWaterMark (input (gzip s)).
Proof.
  destruct (writable s) eqn:Hw.
  - destruct (JSON_stringify msg) as [line|e] eqn:E.
    + now rewrite (write_forwarded msg s line Hw E).
    + now rewrite (write_caught msg s e Hw E).
  - now rewrite (write_dropped msg s Hw).
Qed.

Lemma on_drain_keeps_highWaterMark (now : Z) (s : Session) :
  highWaterMark (input (gzip (snd (on_drain now s)))) =
  highWaterMark (input (gzip s)).
Proof.
  unfold on_drain, bind, set_writable, get_dropCount, gzip_flush_m,
    set_dropCount, ret.
  cbv beta iota. cbn [dropCount].
  destruct (0 <? dropCount s)%N; [|reflexivity].
  match goal with
  | |- context [write ?m ?s0] =>
      pose proof (write_completes m s0) as Hc;
      pose proof (write_keeps_highWaterMark m s0) as Hk;
      destruct (write m s0) as [c s1]
  end.
  cbn [fst snd] in Hc, Hk. subst c. cbn. exact Hk.
Qed.

Lemma pipe_chunk_timeouts (c : option string) (rs : list ClientRequest) :
  map (fun r => timeout (options r)) (pipe_chunk c rs) =
  map (fun r => timeout (options r)) rs.
Proof. destruct c as [c|], rs as [|r rs]; reflexivity. Qed.

Lemma deliver_configured (te : N * Event) (p : Process) :
  configured p -> configured (deliver te p).
Proof.
  destruct te as [t ev]. unfold deliver. cbn [fst snd]. intros H.
  assert (H1 : configured (fire_timer t p)).
  { unfold fire_timer. destruct (uncaught p), (timer p) as [d|]; try exact H.
    destruct (d <=? t)%N; [|exact H].
    destruct H as (Hp & Hr & Hh & _). unfold configured, knobs in *.
    cbn [promise requests session timer gracePeriod requestTimeouts
         maxBufferedBytes] in *.
    repeat split; try assumption; [|now right].
    destruct Hp as [Hp|Hp]; rewrite Hp; cbn; auto. }
  revert H1. generalize (fire_timer t p) as q. clear p H.
  intros q H. unfold step. destruct (uncaught q); [exact H|].
  destruct H as (Hp & Hr & Hh & Hg). unfold configured, knobs in *.
  cbn [gracePeriod requestTimeouts maxBufferedBytes] in *.
  destruct ev as [e | msg | now].
  - repeat split; assumption.
  - destruct Hp as [Hp|Hp]; rewrite Hp.
    + repeat split; try assumption. rewrite Hp. now left.
    + unfold with_session. cbn [promise requests session timer].
      rewrite write_keeps_highWaterMark. repeat split; try assumption.
      now right.
  - unfold gzip_consume, stream_consume.
    destruct (buffered (input (gzip (session q)))) as [|c rest].
    + cbn [pipe_chunk promise requests session timer gzip input
           highWaterMark].
      repeat split; assumption.
    + destruct (match rest with [] => needDrain (input (gzip (session q)))
                           | _ => false end);
        unfold with_session;
        cbn [promise requests session timer];
        rewrite ?on_drain_keeps_highWaterMark, pipe_chunk_timeouts;
        cbn [gzip input highWaterMark];
        repeat split; assumption.
Qed.

(** C9, as the code has it.  [Logger] takes the url and the secret and
    nothing else; whatever they are, the grace period is 5000 ms, the
    request timeout 59000 ms and the compressor's high-water mark 1024
    bytes, and they stay so over every run of events (the grace timer
    until it is spent). *)
Theorem knobs_are_fixed :
  forall (url secret : string) (evs : list (N * Event)),
    knobs (Logger url secret) =
      {| gracePeriod := Some 5000%N;
         requestTimeouts := [59000%N];
         maxBufferedBytes := 1024%N |}
    /\ requestTimeouts (knobs (run evs (Logger url secret))) = [59000%N]
    /\ maxBufferedBytes (knobs (run evs (Logger url secret))) = 1024%N
    /\ (gracePeriod (knobs (run evs (Logger url secret))) = Some 5000%N
        \/ gracePeriod (knobs (run evs (Logger url secret))) = None).
Proof.
  intros url secret evs. split; [reflexivity|].
  assert (H0 : configured (Logger url secret)).
  { unfold configured. cbn. auto. }
  assert (H : configured (run evs (Logger url secret))).
  { revert H0. generalize (Logger url secret) as p.
    induction evs as [|te evs IH]; intros p H0; [exact H0|].
    rewrite run_cons. apply IH. now apply deliver_configured. }
  destruct H as (_ & Hr & Hh & Hg). auto.
Qed.

End Constructor.

(* ------------------------------------------------------------------ *)
(** ** The stream of lines while nothing is dropped *)

Section Streaming.

Import Index.

Lemma serialized_app (a b : list LogMessage) :
  serialized (a ++ b) = (serialized a ++ serialized b)%list.
Proof. unfold serialized. apply flat_map_app. Qed.

Lemma called_cons (te : N * Event) (evs : list (N * Event)) :
  called (te :: evs) =
  (match snd te with Call m => [m] | _ => [] end ++ called evs)%list.
Proof. reflexivity. Qed.

Lemma streaming_start (url secret : string) (T : N) :
  (RESPONSE_GRACE_PERIOD <= T)%N ->
  streaming (fire_timer T (Logger url secret)) [].
Proof.
  intros H. rewrite (fire_timer_at_deadline url secret T H).
  unfold streaming. cbn [uncaught promise timer session].
  repeat split. eexists. repeat split; reflexivity.
Qed.

(** A forwarded or failing call of [write] keeps the stream in step. *)
Lemma streaming_call (p : Process) (lines : list string) (msg : LogMessage) :
  streaming p lines ->
  writable (session p) = true ->
  streaming (step (Call msg) p) (lines ++ serialized [msg]).
Proof.
  intros (Hu & Hp & Ht & Hd & r & Hr & Hh & Hb) Hw.
  unfold step. rewrite Hu, Hp. unfold serialized. cbn [flat_map].
  destruct (JSON_stringify msg) as [line|e] eqn:E.
  - rewrite (write_forwarded msg _ line Hw E).
    unfold streaming, with_session.
    cbn [fst snd uncaught promise timer session requests dropCount gzip].
    repeat split; try assumption.
    exists r. repeat split; try assumption.
    unfold gzip_flush, gzip_write, stream_write. cbn [input buffered snd].
    rewrite app_nil_r, map_app, app_assoc, Hb. reflexivity.
  - rewrite (write_caught msg _ e Hw E).
    unfold streaming, with_session.
    cbn [fst snd uncaught promise timer session requests dropCount gzip].
    repeat split; try assumption.
    exists r. repeat split; try assumption.
    now rewrite !app_nil_r.
Qed.

(** The compressor handing a chunk over keeps the stream in step, and
    takes the oldest chunk out of the buffer. *)
Lemma streaming_consume (p : Process) (lines : list string) (now : Z) :
  streaming p lines ->
  streaming (step (Consume now) p) lines
  /\ buffered (input (gzip (session (step (Consume now) p)))) =
     tl (buffered (input (gzip (session p)))).
Proof.
  intros (Hu & Hp & Ht & Hd & r & Hr & Hh & Hb).
  unfold step. rewrite Hu.
  unfold gzip_consume, stream_consume.
  destruct (buffered (input (gzip (session p)))) as [|c rest] eqn:Eb.
  - cbn [pipe_chunk]. split; [|cbn [session gzip input]; now rewrite Eb].
    unfold streaming. cbn [uncaught promise timer session requests dropCount
                           gzip input].
    repeat split; try assumption. exists r. rewrite Eb.
    repeat split; assumption.
  - set (drain := match rest with [] => needDrain (input (gzip (session p)))
                             | _ => false end).
    assert (Hreq : exists r',
               pipe_chunk (Some c) (requests p) = [r']
               /\ headersSent r' = true
               /\ (bodies r' ++ rest)%list = map (fun l => l ++ newline) lines).
    { rewrite Hr. cbn [pipe_chunk]. eexists. split; [reflexivity|].
      unfold request_write, flushHeaders. rewrite Hh.
      unfold headersSent, bodies in *. cbn [sent].
      split.
      - destruct (sent r); [discriminate | reflexivity].
      - rewrite flat_map_app. cbn [flat_map]. rewrite app_nil_r, <- app_assoc.
        exact Hb. }
    destruct Hreq as (r' & Hr' & Hh' & Hb').
    destruct drain.
    + (* 'drain' fires: the counter is 0, nothing is written *)
      unfold with_session, on_drain, bind, set_writable, get_dropCount,
        gzip_flush_m, ret.
      cbv beta iota. cbn [writable dropCount gzip console fst snd].
      rewrite Hd. cbn [N.ltb N.compare]. cbv beta iota.
      cbn [fst snd session gzip input gzip_flush buffered].
      split; [|reflexivity].
      unfold streaming.
      cbn [uncaught promise timer session requests dropCount gzip input
           gzip_flush buffered].
      repeat split; try assumption. exists r'. repeat split; assumption.
    + cbn [session gzip input buffered]. split; [|reflexivity].
      unfold streaming.
      cbn [uncaught promise timer session requests dropCount gzip input
           buffered].
      repeat split; try assumption. exists r'. repeat split; assumption.
Qed.

Lemma streaming_run (evs : list (N * Event)) :
  forall (p : Process) (lines : list string),
    streaming p lines ->
    quiet evs = true ->
    forwarded evs p = true ->
    streaming (run evs p) (lines ++ serialized (called evs)).
Proof.
  induction evs as [|[t ev] evs IH]; intros p lines Hs Hq Hf.
  - cbn. now rewrite app_nil_r.
  - cbn [quiet forallb snd] in Hq. apply andb_true_iff in Hq as [Hq1 Hq2].
    cbn [forwarded fst snd] in Hf. apply andb_true_iff in Hf as [Hf1 Hf2].
    rewrite run_cons, called_cons. cbn [snd].
    assert (Hidle : fire_timer t p = p).
    { apply fire_timer_idle. now destruct Hs as (_ & _ & Ht & _). }
    unfold deliver in *. cbn [fst snd] in *. rewrite Hidle in *.
    destruct ev as [e | msg | now].
    + discriminate.
    + rewrite serialized_app, app_assoc.
      apply IH; [now apply streaming_call | exact Hq2 | exact Hf2].
    + cbn [List.app].
      apply IH; [now apply streaming_consume | exact Hq2 | exact Hf2].
Qed.

Lemma streaming_finish (t : N) (now : Z) :
  forall (p : Process) (lines : list string),
    streaming p lines ->
    streaming (finish t now p) lines
    /\ buffered (input (gzip (session (finish t now p)))) = [].
Proof.
  intros p lines. unfold finish.
  remember (buffered (input (gzip (session p)))) as b eqn:Eb.
  revert p Eb. induction b as [|c rest IH]; intros p Eb Hs.
  - cbn. now split.
  - cbn [List.length repeat]. rewrite run_cons. unfold deliver. cbn [fst snd].
    rewrite fire_timer_idle by (now destruct Hs as (_ & _ & Ht & _)).
    destruct (streaming_consume p lines now Hs) as [Hs' Hb'].
    rewrite <- Eb in Hb'. cbn [tl] in Hb'.
    apply IH; [now symmetry | exact Hs'].
Qed.

Lemma split_lines_text_of (lines : list string) :
  Forall (fun l => has_char nl l = false) lines ->
  split_lines (text_of (map (fun l => l ++ newline) lines)) = lines.
Proof.
  induction 1 as [|l lines Hl Hls IH]; cbn [map text_of fold_right].
  - reflexivity.
  - rewrite append_assoc, split_lines_line by exact Hl.
    unfold text_of in IH. now rewrite IH.
Qed.

Lemma serialized_no_newline (msgs : list LogMessage) :
  Forall (fun l => has_char nl l = false) (serialized msgs).
Proof.
  induction msgs as [|m msgs IH]; cbn [serialized flat_map].
  - constructor.
  - apply Forall_app. split; [|exact IH].
    destruct (JSON_stringify m) as [line|e] eqn:E; constructor;
      [|constructor].
    exact (JSON_stringify_no_newline m line E).
Qed.

Lemma serialized_length (msgs : list LogMessage) :
  Forall serializable msgs ->
  List.length (serialized msgs) = List.length msgs.
Proof.
  induction 1 as [|m msgs [line Hm] Hms IH]; cbn [serialized flat_map].
  - reflexivity.
  - rewrite Hm. cbn. f_equal. exact IH.
Qed.

End Streaming.

Section Codec.

Import Index.

(** zlib is not part of the repository.  What is used of it is that
    decompressing what the compressor emitted for a sequence of chunks
    gives back their text. *)
Variable Wire : Type.
Variable gzip_stream : list string -> Wire.
Variable gunzip : Wire -> string.
Hypothesis gunzip_gzip_stream :
  forall chunks, gunzip (gzip_stream chunks) = text_of chunks.

Lemma serialized_Forall2 (msgs : list LogMessage) :
  Forall serializable msgs ->
  Forall2 (fun m l => JSON_stringify m = Normal l) msgs (serialized msgs).
Proof.
  induction 1 as [|m msgs [line Hm] Hms IH]; cbn [serialized flat_map].
  - constructor.
  - rewrite Hm. cbn [List.app]. constructor; assumption.
Qed.

(** C1.  Once the promise is fulfilled, over any sequence of calls of
    [write] (interleaved at will with the compressor handing chunks over)
    in which every call finds the flag [true]: when the compressor has
    handed everything over, decompressing the request body and splitting
    it at the line breaks gives the serializations of the records, in call
    order; when every record has a serialization, that is one line per
    record, line [i] being [JSON.stringify] of record [i]. *)
Theorem forwarded_records_are_the_output_lines :
  forall (url secret : string) (T t : N) (now : Z) (evs : list (N * Event)),
    (RESPONSE_GRACE_PERIOD <= T)%N ->
    quiet evs = true ->
    forwarded evs (fire_timer T (Logger url secret)) = true ->
    let p := finish t now (run evs (fire_timer T (Logger url secret))) in
    let out := split_lines (gunzip (gzip_stream (body_chunks p))) in
    buffered (input (gzip (session p))) = []
    /\ out = serialized (called evs)
    /\ (Forall serializable (called evs) ->
        Forall2 (fun m l => JSON_stringify m = Normal l) (called evs) out).
Proof.
  intros url secret T t now evs HT Hq Hf p out.
  pose proof (streaming_run evs _ [] (streaming_start url secret T HT) Hq Hf)
    as Hrun.
  cbn [List.app] in Hrun.
  destruct (streaming_finish t now _ _ Hrun) as [Hfin Hempty].
  fold p in Hfin, Hempty.
  assert (Hout : out = serialized (called evs)).
  { subst out. rewrite gunzip_gzip_stream.
    destruct Hfin as (_ & _ & _ & _ & r & Hr & _ & Hb).
    unfold body_chunks. rewrite Hr. cbn [flat_map]. rewrite app_nil_r.
    rewrite Hempty, app_nil_r in Hb. rewrite Hb.
    apply split_lines_text_of, serialized_no_newline. }
  repeat split; [exact Hempty | exact Hout |].
  intros Hall. rewrite Hout. now apply serialized_Forall2.
Qed.

End Codec.

Lemma forwarded_records_are_the_output_lines_witness :
  let a := [("message", JsString "a")] in
  let b := [("message", JsString "b")] in
  let evs := [(5000%N, Index.Call a); (5020%N, Index.Call b);
              (5030%N, Index.Consume 0%Z)] in
  let p := Index.finish 5040%N 0%Z
             (Index.run evs (Index.fire_timer 5000%N (Index.Logger "u" "s"))) in
  split_lines (text_of (Index.body_chunks p)) =
  [ "{" ++ dq ++ "message" ++ dq ++ ":" ++ dq ++ "a" ++ dq ++ "}";
    "{" ++ dq ++ "message" ++ dq ++ ":" ++ dq ++ "b" ++ dq ++ "}" ].
Proof.
  intros a b evs p.
  exact (proj1 (proj2
    (forwarded_records_are_the_output_lines string text_of (fun w => w)
       (fun chunks => eq_refl) "u" "s" 5000%N 5040%N 0%Z evs
       ltac:(unfold Index.RESPONSE_GRACE_PERIOD; lia) eq_refl eq_refl))).
Defined.

(* ------------------------------------------------------------------ *)
(** ** Request events during the handshake *)

Section Handshake.

Import Index.

Lemma listener_throws (e : ReqEvent) :
  exists message cause, listener e = Throw (LoggerError message cause).
Proof. destruct e; cbn; do 2 eexists; reflexivity. Qed.

(** C3 on [index.ts].  A request event that arrives before the grace
    period is over is answered by a listener that throws: the promise is
    left pending, for good, the [LoggerError] (for a response, the one
    carrying the status code) is an uncaught exception of the process, and
    no body chunk is ever sent. *)
Theorem request_event_is_thrown_not_rejected :
  forall (url secret : string) (pre post : list (N * Event)) (t : N)
         (e : ReqEvent),
    (forall te, In te pre -> (fst te < RESPONSE_GRACE_PERIOD)%N) ->
    quiet pre = true ->
    (t < RESPONSE_GRACE_PERIOD)%N ->
    let p := run (pre ++ (t, Req e) :: post) (Logger url secret) in
    promise p = Pending
    /\ (exists message cause, uncaught p = Some (LoggerError message cause))
    /\ (forall code, e = response code ->
          uncaught p =
          Some (LoggerError
                  ("Received response from log backend with status code: "
                   ++ NatToString code)
                  (Some (IncomingMessage code))))
    /\ body_chunks p = [].
Proof.
  intros url secret pre post t e Hpre Hq Ht p. subst p.
  rewrite run_app, (run_before_deadline url secret pre Hpre Hq), run_cons.
  unfold deliver. cbn [fst snd].
  assert (Hf : fire_timer t (Logger url secret) = Logger url secret).
  { unfold fire_timer. cbn [uncaught timer Logger].
    apply N.leb_gt in Ht. now rewrite Ht. }
  rewrite Hf.
  destruct (listener_throws e) as (message & cause & Hl).
  assert (Hs : step (Req e) (Logger url secret) =
               with_uncaught (Logger url secret) (listener e)) by reflexivity.
  rewrite Hs.
  rewrite (run_dead post _ (LoggerError message cause))
    by (unfold with_uncaught; rewrite Hl; reflexivity).
  unfold with_uncaught. cbn [promise uncaught Logger].
  repeat split.
  - rewrite Hl. eauto.
  - intros code ->. reflexivity.
Qed.

Lemma request_event_is_thrown_not_rejected_witness :
  let p := run [(1000%N, Req (response 401));
                (5000%N, Call [("message", JsString "a")]);
                (5001%N, Consume 0%Z)]
               (Logger "https://api.balena-cloud.com/device/v2/x/log-stream"
                       "key") in
  promise p = Pending
  /\ uncaught p =
     Some (LoggerError
             "Received response from log backend with status code: 401"
             (Some (IncomingMessage 401)))
  /\ body_chunks p = [].
Proof.
  intros p.
  pose proof (request_event_is_thrown_not_rejected
                "https://api.balena-cloud.com/device/v2/x/log-stream" "key"
                [] [(5000%N, Call [("message", JsString "a")]);
                    (5001%N, Consume 0%Z)]
                1000%N (response 401)
                (fun te (H : In te []) => match H with end)
                eq_refl eq_refl) as (Hp & _ & Hu & Hb).
  split; [exact Hp | split; [exact (Hu 401%N eq_refl) | exact Hb]].
Defined.

(** The same events in the [p-throttle] variant of [got.ts]: the first
    one to arrive before [resolve(write)] rejects the promise, and the
    later [resolve] does not undo it. *)
Lemma throttled_request_event_rejects (e : ReqEvent) (rest : list ReqEvent) :
  exists message cause,
    Throttled.construct (e :: rest) = Rejected (LoggerError message cause)
    /\ (forall code, e = response code ->
          message = "Received response from log backend with status code: "
                    ++ NatToString code).
Proof.
  unfold Throttled.construct. cbn [fold_left].
  assert (Hkeep : forall (l : list ReqEvent) x,
             fold_left (fun p e0 => Throttled.listener e0 p) l
               (@Rejected (Z -> LogMessage -> Throttled.M unit) x)
             = Rejected x).
  { induction l as [|e0 l IH]; intros x; [reflexivity|].
    cbn [fold_left]. destruct e0; cbn; apply IH. }
  destruct e; cbn [Throttled.listener reject]; rewrite Hkeep; cbn [resolve];
    do 2 eexists; (split; [reflexivity | intros code H; inversion H; reflexivity
                                         || discriminate H]).
Qed.

End Handshake.

(* ------------------------------------------------------------------ *)
(** ** Flushes *)

Section Flushes.

Import Throttled.

Lemma last_slot_snoc (l : list Z) (x : Z) : last_slot (l ++ [x]) = Some x.
Proof. unfold last_slot. now rewrite rev_app_distr. Qed.

Lemma last_slot_cons (a b : Z) (l : list Z) :
  last_slot (a :: b :: l) = last_slot (b :: l).
Proof.
  unfold last_slot. cbn [List.rev].
  destruct (List.rev l ++ [b])%list eqn:E.
  - destruct (List.rev l); discriminate.
  - reflexivity.
Qed.

Lemma spaced_snoc (d : Z) (l : list Z) (y : Z) :
  spaced d l ->
  (forall x, last_slot l = Some x -> (x + d <= y)%Z) ->
  spaced d (l ++ [y]).
Proof.
  induction l as [|a l IH]; intros Hs Hl.
  - cbn. auto.
  - destruct Hs as [Ha Hs]. destruct l as [|b l].
    + cbn. split; [|auto]. apply Hl. reflexivity.
    + change ((a + d <= b)%Z /\ spaced d ((b :: l) ++ [y])).
      split; [exact Ha|].
      apply IH; [exact Hs|].
      intros x Hx. apply Hl. now rewrite last_slot_cons.
Qed.

(** Every call of the throttled [flush] is given a slot of its own, at
    least one interval after the previous one. *)
Lemma flush_limited (now : Z) (s : Session) :
  limited s ->
  limited (snd (flush now s))
  /\ exists slot, slots (snd (flush now s)) = (slots s ++ [slot])%list.
Proof.
  intros (Hl & Hi & Hsp & Hlast).
  unfold flush, windowedDelay. rewrite Hl, Hi.
  destruct (ZLIB_TIMEOUT <? now - currentTick (throttle s))%Z eqn:E1;
    [| destruct (activeCount (throttle s) <? 1)%Z eqn:E2];
    cbn [snd slots];
    (split; [| eexists; reflexivity]);
    unfold limited;
    cbn [slots throttle limit interval activeCount currentTick];
    rewrite last_slot_snoc;
    (split; [reflexivity | split; [reflexivity | split]]).
  - apply spaced_snoc; [exact Hsp|]. intros x Hx. rewrite Hx in Hlast.
    apply Z.ltb_lt in E1. destruct Hlast as [_ Ht]. lia.
  - split; [reflexivity | lia].
  - apply spaced_snoc; [exact Hsp|]. intros x Hx. rewrite Hx in Hlast.
    apply Z.ltb_lt in E2. destruct Hlast as [Ha _]. lia.
  - apply Z.ltb_lt in E2.
    destruct (last_slot (slots s)); [destruct Hlast; lia | split; lia].
  - apply spaced_snoc; [exact Hsp|]. intros x Hx. rewrite Hx in Hlast.
    destruct Hlast as [_ Ht]. lia.
  - split; [reflexivity | lia].
Qed.

Lemma throttled_write_forwarded (now : Z) (msg : LogMessage) (s : Session)
      (line : string) :
  writable s = true ->
  JSON_stringify msg = Normal line ->
  write now msg s =
  flush now
    {| writable := fst (stream_write (line ++ newline) (log s));
       dropCount := dropCount s;
       log := snd (stream_write (line ++ newline) (log s));
       throttle := throttle s; slots := slots s; console := console s |}.
Proof.
  intros Hw Hl.
  unfold write, bind, get_writable, try_catch, lift, log_write, set_writable.
  cbv beta iota. rewrite Hw, Hl.
  destruct (stream_write (line ++ newline) (log s)) as [r w].
  cbv beta iota. cbn [writable dropCount log throttle slots console fst snd].
  unfold flush.
  cbn [writable dropCount log throttle slots console].
  destruct (windowedDelay now (throttle s)). reflexivity.
Qed.

Lemma throttled_write_forwarded_fields (now : Z) (msg : LogMessage)
      (s : Session) (line : string) :
  writable s = true ->
  JSON_stringify msg = Normal line ->
  let s' := snd (write now msg s) in
  writable s' = fst (stream_write (line ++ newline) (log s))
  /\ throttle s' = snd (windowedDelay now (throttle s))
  /\ slots s' =
     (slots s ++ [(now + fst (windowedDelay now (throttle s)))%Z])%list.
Proof.
  intros Hw Hl s'. subst s'.
  rewrite (throttled_write_forwarded now msg s line Hw Hl).
  unfold flush. cbn [throttle slots writable].
  destruct (windowedDelay now (throttle s)) as [delay t]. now cbn.
Qed.

Lemma throttled_write_limited (now : Z) (msg : LogMessage) (s : Session) :
  limited s -> limited (snd (write now msg s)).
Proof.
  intros H. destruct (writable s) eqn:Hw.
  - destruct (JSON_stringify msg) as [line|e] eqn:E.
    + rewrite (throttled_write_forwarded now msg s line Hw E).
      apply flush_limited. exact H.
    + unfold write, bind, get_writable, try_catch, lift, console_error.
      cbv beta iota. rewrite Hw, E. exact H.
  - unfold write, bind, get_writable, get_dropCount, set_dropCount.
    cbv beta iota. rewrite Hw. exact H.
Qed.

Lemma writes_limited (calls : list (Z * LogMessage)) :
  forall s, limited s -> limited (writes calls s).
Proof.
  induction calls as [|c calls IH]; intros s H.
  - exact H.
  - unfold writes in *. cbn [fold_left]. apply IH.
    now apply throttled_write_limited.
Qed.

Lemma initial_limited : limited initial.
Proof. unfold limited. cbn. auto. Qed.

End Flushes.

Section FlushCadence.

(** C7, as the code has it.  In [index.ts] a forwarded [write] calls
    [gzip.flush()] itself, at once and every time.  In the [p-throttle]
    variant of [got.ts] a forwarded [write] asks the limiter for a flush
    and is given a slot of its own: slots are never merged, and they lie
    at least [ZLIB_TIMEOUT] = 100 ms apart; two writes no more than 50 ms
    apart therefore lead to two flushes, the second one 100 ms after the
    first. *)
Theorem each_forwarded_write_issues_its_own_flush :
  (forall (msg : LogMessage) (s : Index.Session) (line : string),
      Index.writable s = true ->
      JSON_stringify msg = Normal line ->
      flushes (Index.gzip (snd (Index.write msg s))) =
      (flushes (Index.gzip s) ++ [Z_FULL_FLUSH])%list)
  /\ (forall (now : Z) (msg : LogMessage) (s : Throttled.Session)
             (line : string),
        Throttled.writable s = true ->
        JSON_stringify msg = Normal line ->
        exists slot,
          Throttled.slots (snd (Throttled.write now msg s)) =
          (Throttled.slots s ++ [slot])%list)
  /\ (forall calls : list (Z * LogMessage),
        Throttled.spaced Throttled.ZLIB_TIMEOUT
          (Throttled.slots (Throttled.writes calls Throttled.initial)))
  /\ (forall (t d : Z) (a b : LogMessage) (la lb : string),
        (Throttled.ZLIB_TIMEOUT < t)%Z ->
        (0 <= d <= 50)%Z ->
        JSON_stringify a = Normal la ->
        JSON_stringify b = Normal lb ->
        (byteLength (la ++ newline) < Throttled.MAX_PENDING_BYTES / 2)%N ->
        Throttled.slots
          (Throttled.writes [(t, a); ((t + d)%Z, b)] Throttled.initial) =
        [t; (t + Throttled.ZLIB_TIMEOUT)%Z]).
Proof.
  split; [| split; [| split]].
  - intros msg s line Hw Hl.
    rewrite (write_forwarded msg s line Hw Hl). reflexivity.
  - intros now msg s line Hw Hl.
    rewrite (throttled_write_forwarded now msg s line Hw Hl).
    unfold Throttled.flush. cbn [Throttled.throttle Throttled.slots].
    destruct (Throttled.windowedDelay now (Throttled.throttle s)).
    eexists. reflexivity.
  - intros calls.
    exact (proj1 (proj2 (proj2 (writes_limited calls _ initial_limited)))).
  - intros t d a b la lb Ht Hd Ha Hb Hfit.
    unfold Throttled.writes. cbn [fold_left fst snd].
    destruct (throttled_write_forwarded_fields t a Throttled.initial la
                eq_refl Ha) as (Hw1 & Ht1 & Hs1).
    assert (Hret : fst (stream_write (la ++ newline)
                          (Throttled.log Throttled.initial)) = true).
    { unfold stream_write. cbn [fst Throttled.log Throttled.initial
                                 highWaterMark bufferedLength buffered
                                 fold_right].
      apply N.ltb_lt. rewrite N.add_0_l. exact Hfit. }
    rewrite Hret in Hw1.
    assert (E1 : (Throttled.ZLIB_TIMEOUT <? t - 0)%Z = true)
      by (apply Z.ltb_lt; unfold Throttled.ZLIB_TIMEOUT in *; lia).
    unfold Throttled.windowedDelay in Ht1, Hs1.
    cbn [Throttled.throttle Throttled.initial Throttled.pThrottle
         Throttled.interval Throttled.currentTick Throttled.slots] in Ht1, Hs1.
    rewrite E1 in Ht1, Hs1. cbn [fst snd List.app] in Ht1, Hs1.
    destruct (throttled_write_forwarded_fields (t + d) b _ lb Hw1 Hb)
      as (_ & _ & Hs2).
    rewrite Hs2, Hs1, Ht1. unfold Throttled.windowedDelay.
    cbn [Throttled.interval Throttled.currentTick Throttled.limit
         Throttled.activeCount].
    assert (E2 : (Throttled.ZLIB_TIMEOUT <? t + d - t)%Z = false)
      by (apply Z.ltb_ge; unfold Throttled.ZLIB_TIMEOUT; lia).
    rewrite E2. cbn [Z.ltb Z.compare Pos.compare Pos.compare_cont fst
                     List.app].
    unfold Throttled.ZLIB_TIMEOUT, Throttled.pThrottle.
    cbn [Throttled.limit Z.ltb Z.compare Pos.compare Pos.compare_cont fst].
    f_equal; [lia | f_equal; lia].
Qed.

End FlushCadence.

(* ------------------------------------------------------------------ *)
(** ** The counter is 0 whenever the flag is up *)

Section Counter.

Import Index.

Lemma write_counter_rests (msg : LogMessage) (s : Session) :
  counter_rests s -> counter_rests (snd (write msg s)).
Proof.
  unfold counter_rests. intros H. destruct (writable s) eqn:Hw.
  - destruct (JSON_stringify msg) as [line|e] eqn:E.
    + rewrite (write_forwarded msg s line Hw E). cbn. auto.
    + rewrite (write_caught msg s e Hw E). cbn. auto.
  - rewrite (write_dropped msg s Hw). cbn. discriminate.
Qed.

Lemma on_drain_counter_zero (now : Z) (s : Session) :
  fst (on_drain now s) = Normal tt /\ dropCount (snd (on_drain now s)) = 0%N.
Proof.
  unfold on_drain, bind, set_writable, get_dropCount, gzip_flush_m,
    set_dropCount, ret.
  cbv beta iota. cbn [dropCount].
  destruct (0 <? dropCount s)%N eqn:E.
  - match goal with
    | |- context [write ?m ?s0] =>
        pose proof (write_completes m s0) as Hc;
        destruct (write m s0) as [c s1]
    end.
    cbn [fst] in Hc. subst c. cbn. auto.
  - apply N.ltb_ge in E. cbn. split; [reflexivity | lia].
Qed.

Lemma run_counter_rests (url secret : string) (evs : list (N * Event)) :
  let p := run evs (Logger url secret) in
  counter_rests (session p)
  /\ (promise p = Pending \/ promise p = Fulfilled write).
Proof.
  cbv zeta.
  assert (H0 : counter_rests (session (Logger url secret))
               /\ (promise (Logger url secret) = Pending
                   \/ promise (Logger url secret) = Fulfilled write)).
  { split; [intros _; reflexivity | now left]. }
  revert H0. generalize (Logger url secret) as p.
  induction evs as [|[t ev] evs IH]; intros p H0; [exact H0|].
  rewrite run_cons. apply IH. clear IH. unfold deliver. cbn [fst snd].
  assert (H1 : counter_rests (session (fire_timer t p))
               /\ (promise (fire_timer t p) = Pending
                   \/ promise (fire_timer t p) = Fulfilled write)).
  { unfold fire_timer. destruct (uncaught p), (timer p) as [d|]; try exact H0.
    destruct (d <=? t)%N; [|exact H0]. cbn [session promise].
    destruct H0 as [Hc [Hp|Hp]]; rewrite Hp; cbn; auto. }
  revert H1. generalize (fire_timer t p) as q. clear p H0.
  intros q [Hc Hp]. unfold step. destruct (uncaught q); [now split|].
  destruct ev as [e | msg | now].
  - now split.
  - destruct Hp as [Hp|Hp]; rewrite Hp; [now split; [|left]|].
    unfold with_session. cbn [session promise].
    split; [now apply write_counter_rests | now right].
  - unfold gzip_consume.
    destruct (stream_consume (input (gzip (session q)))) as [[c drain] w].
    destruct drain; cbn [with_session session promise]; (split; [|exact Hp]).
    + intros _. apply on_drain_counter_zero.
    + exact Hc.
Qed.

End Counter.

(* ------------------------------------------------------------------ *)
(** ** Concrete runs *)

Section Runs.

Import Index.

Lemma write_while_unwritable_only_counts_witness :
  let m := [("message", JsString "a")] in
  writable (congested 2) = false
  /\ write m (congested 2) = (Normal tt, congested 3)
  /\ write_all [m; m] (congested 2) = congested 4.
Proof.
  intros m. split; [reflexivity|].
  destruct (write_while_unwritable_only_counts m [m; m] (congested 2) eq_refl)
    as (H1 & H2 & _).
  split; [exact H1 | exact H2].
Defined.

Lemma write_serialization_failure_leaves_state_witness :
  let bad := [("message", JsString "a"); ("id", JsBigInt 7)] in
  let s := session (Logger "u" "k") in
  let e := TypeError "Do not know how to serialize a BigInt" in
  JSON_stringify bad = Throw e
  /\ write bad s =
     (Normal tt,
      {| writable := true; dropCount := 0; gzip := gzip s;
         console :=
           [console_error_entry
              "Failed to write to logging stream, dropping message" e] |}).
Proof.
  intros bad s e. split; [reflexivity|].
  exact (write_serialization_failure_leaves_state bad s e eq_refl eq_refl).
Defined.

Lemma write_never_raises_witness :
  let bad := [("message", JsString "a"); ("id", JsBigInt 7)] in
  let good := [("message", JsString "b")] in
  let s := session (Logger "u" "k") in
  let s1 := snd (write bad s) in
  fst (write bad s) = Normal tt
  /\ writable s1 = true
  /\ accepted (input (gzip (snd (write good s1)))) =
     [ "{" ++ dq ++ "message" ++ dq ++ ":" ++ dq ++ "b" ++ dq ++ "}"
       ++ newline ].
Proof.
  intros bad good s s1.
  destruct write_never_raises as (Hall & Hnext & _).
  split; [exact (Hall bad s)|].
  destruct (Hnext bad good s
              (TypeError "Do not know how to serialize a BigInt")
              ("{" ++ dq ++ "message" ++ dq ++ ":" ++ dq ++ "b" ++ dq ++ "}")
              eq_refl eq_refl eq_refl) as (Hw & _ & _ & _ & Hacc).
  split; [exact Hw | exact Hacc].
Defined.

Lemma drain_reports_suppressed_count_witness :
  let m := [("message", JsString "a")] in
  let s1 := write_all [m; m; m] (congested 0) in
  let s2 := snd (on_drain 1700000000000%Z s1) in
  dropCount s1 = 3%N
  /\ accepted (input (gzip s2)) =
     [ warning_line 3 1700000000000%Z ++ newline ]
  /\ has_substring "Suppressed 3 message(s) due to high load"
       (warning_line 3 1700000000000%Z) = true
  /\ dropCount s2 = 0%N.
Proof.
  intros m s1 s2.
  destruct (drain_reports_suppressed_count [m; m; m] (congested 0)
              1700000000000%Z eq_refl eq_refl ltac:(discriminate))
    as (_ & _ & Hd & _ & Hacc & _ & Hsub & _ & _ & Hz).
  split; [exact Hd | split; [exact Hacc | split; [exact Hsub | exact Hz]]].
Defined.

Lemma construction_succeeds_after_quiet_grace_period_witness :
  let url := "https://api.balena-cloud.com/device/v2/x/log-stream" in
  let m := [("message", JsString "a")] in
  let pre := [(100%N, Call m); (4999%N, Consume 0%Z)] in
  let p := fire_timer 5000%N (run pre (Logger_call sample_protocol_of url "key")) in
  let q := run (pre ++ [(5000%N, Call m)])
               (Logger_call sample_protocol_of url "key") in
  promise p = Fulfilled write
  /\ uncaught q = None
  /\ accepted (input (gzip (session q))) =
     [ "{" ++ dq ++ "message" ++ dq ++ ":" ++ dq ++ "a" ++ dq ++ "}"
       ++ newline ].
Proof.
  intros url m pre p q.
  assert (Hpre : forall te, In te pre -> (fst te < RESPONSE_GRACE_PERIOD)%N).
  { intros te [<-|[<-|[]]]; reflexivity. }
  destruct (construction_succeeds_after_quiet_grace_period
              sample_protocol_of url "key" pre 5000%N m
              ("{" ++ dq ++ "message" ++ dq ++ ":" ++ dq ++ "a" ++ dq ++ "}")
              eq_refl
              Hpre eq_refl ltac:(unfold RESPONSE_GRACE_PERIOD; lia) eq_refl)
    as (_ & Hp & _ & _ & _ & Hu & Hacc).
  split; [exact Hp | split; [exact Hu | exact Hacc]].
Defined.

(** The whole path in one run: a record too long for the high-water mark
    of 1024 bytes takes the flag down, three records are dropped, the
    compressor hands the long line over, ['drain'] fires; the request body
    is then the long line followed by the warning for three records. *)
Example three_suppressed_scenario :
  let big := [("message", JsString (padding 1100))] in
  let m := [("message", JsString "a")] in
  let p := run [ (5000%N, Call big);
                 (5001%N, Call m); (5002%N, Call m); (5003%N, Call m);
                 (5004%N, Consume 1700000000000%Z);
                 (5005%N, Consume 1700000000001%Z) ]
               (Logger "u" "k") in
  body_chunks p =
    [ "{" ++ dq ++ "message" ++ dq ++ ":" ++ dq ++ padding 1100 ++ dq ++ "}"
      ++ newline;
      warning_line 3 1700000000000%Z ++ newline ]
  /\ writable (session p) = true
  /\ dropCount (session p) = 0%N
  /\ uncaught p = None.
Proof. vm_compute. repeat split. Qed.

(** C7 fails on [index.ts]: two writes 10 ms apart make two flushes. *)
Lemma two_quick_writes_flush_twice :
  let p := run [(5000%N, Call [("message", JsString "a")]);
                (5010%N, Call [("message", JsString "b")])]
               (Logger "u" "k") in
  flushes (gzip (session p)) = [Z_FULL_FLUSH; Z_FULL_FLUSH]
  /\ ~ (List.length (flushes (gzip (session p))) <= 1)%nat.
Proof. split; [reflexivity | cbn; lia]. Qed.

Lemma each_forwarded_write_issues_its_own_flush_witness :
  let a := [("message", JsString "a")] in
  let b := [("message", JsString "b")] in
  flushes (gzip (snd (write a (session (Logger "u" "k"))))) = [Z_FULL_FLUSH]
  /\ Throttled.slots
       (Throttled.writes [(5000%Z, a); (5050%Z, b)] Throttled.initial) =
     [5000%Z; 5100%Z].
Proof.
  intros a b.
  destruct each_forwarded_write_issues_its_own_flush as (Hi & _ & _ & Ht).
  split.
  - exact (Hi a (session (Logger "u" "k"))
              ("{" ++ dq ++ "message" ++ dq ++ ":" ++ dq ++ "a" ++ dq ++ "}")
              eq_refl eq_refl).
  - exact (Ht 5000%Z 50%Z a b
              ("{" ++ dq ++ "message" ++ dq ++ ":" ++ dq ++ "a" ++ dq ++ "}")
              ("{" ++ dq ++ "message" ++ dq ++ ":" ++ dq ++ "b" ++ dq ++ "}")
              eq_refl ltac:(lia) eq_refl eq_refl eq_refl).
Defined.

(** C8 fails as stated: the request carries a fourth header. *)
Lemma request_has_a_fourth_header :
  map (fun r => headers (options r))
      (requests (Logger_call sample_protocol_of
                   "https://api.balena-cloud.com/device/v2/x/log-stream"
                   "key"))
  <> [ [ ("Authorization", "Bearer key");
         ("Content-Type", "application/x-ndjson");
         ("Content-Encoding", "gzip") ] ].
Proof. cbn. intros H. inversion H. Qed.

(** C9 fails as stated: no call of [Logger] runs with other knobs than
    any other call. *)
Lemma no_call_overrides_a_knob :
  ~ (exists url secret url' secret',
        knobs (Logger url secret) <> knobs (Logger url' secret')).
Proof. intros (url & secret & url' & secret' & H). now apply H. Qed.

End Runs.

(* ------------------------------------------------------------------ *)
(** ** More on [index.ts]: the ['drain'] listener and the live process *)

Section DrainListener.

Import Index.

Lemma on_drain_unfolded (now : Z) (s : Session) :
  on_drain now s =
  if (0 <? dropCount s)%N then
    (Normal tt,
     {| writable :=
          fst (gzip_write (warning_line (dropCount s) now ++ newline) (gzip s));
        dropCount := 0;
        gzip :=
          gzip_flush None
            (gzip_flush None
               (snd (gzip_write (warning_line (dropCount s) now ++ newline)
                       (gzip s))));
        console := console s |})
  else
    (Normal tt,
     {| writable := true; dropCount := dropCount s;
        gzip := gzip_flush None (gzip s); console := console s |}).
Proof.
  unfold on_drain, bind, set_writable, get_dropCount, gzip_flush_m,
    set_dropCount, ret.
  cbv beta iota. cbn [writable dropCount gzip console].
  destruct (0 <? dropCount s)%N eqn:E; [|reflexivity].
  cbv beta iota.
  rewrite (write_forwarded (warning (dropCount s) now) _
             (warning_line (dropCount s) now))
    by (try reflexivity; apply stringify_warning).
  reflexivity.
Qed.

Lemma on_drain_effect (now : Z) (s : Session) :
  fst (on_drain now s) = Normal tt
  /\ dropCount (snd (on_drain now s)) = 0%N
  /\ console (snd (on_drain now s)) = console s
  /\ accepted (input (gzip (snd (on_drain now s)))) =
     (accepted (input (gzip s)) ++ drain_chunks (dropCount s) now)%list
  /\ flushes (gzip (snd (on_drain now s))) =
     (flushes (gzip s)
      ++ if (0 <? dropCount s)%N then [Z_FULL_FLUSH; Z_FULL_FLUSH]
         else [Z_FULL_FLUSH])%list
  /\ writable (snd (on_drain now s)) =
     if (0 <? dropCount s)%N
     then fst (gzip_write (warning_line (dropCount s) now ++ newline) (gzip s))
     else true.
Proof.
  rewrite on_drain_unfolded.
  unfold drain_chunks.
  destruct (0 <? dropCount s)%N eqn:E; cbn [fst snd dropCount console gzip
                                            writable].
  - repeat split.
    + unfold gzip_flush. cbn [input]. apply accepted_gzip_write.
    + unfold gzip_flush, gzip_write.
      destruct (stream_write _ (input (gzip s))). cbn [flushes snd].
      now rewrite <- app_assoc.
  - apply N.ltb_ge in E. repeat split; try lia.
    unfold gzip_flush. cbn [input]. now rewrite app_nil_r.
Qed.

(** X1.  The ['drain'] listener of [index.ts], from any session: it never
    throws, leaves the counter at 0 and the console alone, gives the
    compressor the warning line for the counter when that was positive and
    nothing otherwise, and calls [flush()] once more than it wrote; with
    nothing dropped the flag ends [true], otherwise it is the sink's answer
    to the warning. *)
Theorem drain_listener_pushes_at_most_the_warning :
  forall (now : Z) (s : Session),
    let n := dropCount s in
    let s' := snd (on_drain now s) in
    fst (on_drain now s) = Normal tt
    /\ dropCount s' = 0%N
    /\ console s' = console s
    /\ accepted (input (gzip s')) =
       (accepted (input (gzip s)) ++ drain_chunks n now)%list
    /\ flushes (gzip s') =
       (flushes (gzip s)
        ++ if (0 <? n)%N then [Z_FULL_FLUSH; Z_FULL_FLUSH] else [Z_FULL_FLUSH])%list
    /\ writable s' =
       if (0 <? n)%N
       then fst (gzip_write (warning_line n now ++ newline) (gzip s))
       else true.
Proof.
  intros now s n s'. subst n s'.
  apply on_drain_effect.
Qed.

(** X4.  Every record passed to [write] is accounted for exactly once: it
    is given to the compressor, or logged on the console as failing, or
    counted as dropped. *)
Theorem every_record_is_accounted_for :
  forall (msgs : list LogMessage) (s : Session),
    let s' := write_all msgs s in
    (List.length (accepted (input (gzip s'))) + List.length (console s')
     + N.to_nat (dropCount s'))%nat
    = (List.length (accepted (input (gzip s))) + List.length (console s)
       + N.to_nat (dropCount s) + List.length msgs)%nat.
Proof.
  intros msgs. induction msgs as [|m msgs IH]; intros s; cbv zeta in *.
  - cbn. lia.
  - unfold write_all in *. cbn [fold_left List.length]. rewrite IH. clear IH.
    destruct (writable s) eqn:Hw.
    + destruct (JSON_stringify m) as [line|e] eqn:E.
      * rewrite (write_forwarded m s line Hw E).
        cbn [snd gzip console dropCount]. unfold gzip_flush. cbn [input].
        rewrite accepted_gzip_write, length_app. cbn. lia.
      * rewrite (write_caught m s e Hw E).
        cbn [snd gzip console dropCount]. rewrite length_app. cbn. lia.
    + rewrite (write_dropped m s Hw). cbn [snd gzip console dropCount]. lia.
Qed.

End DrainListener.

Section LiveProcess.

Import Index.

Lemma run_preserves (P : Process -> Prop) :
  (forall te p, P p -> P (deliver te p)) ->
  forall evs p, P p -> P (run evs p).
Proof.
  intros Hstep evs. induction evs as [|te evs IH]; intros p Hp.
  - exact Hp.
  - rewrite run_cons. apply IH, Hstep, Hp.
Qed.

Lemma write_wakeup_due (msg : LogMessage) (s : Session) :
  wakeup_due s -> wakeup_due (snd (write msg s)).
Proof.
  unfold wakeup_due. intros H. destruct (writable s) eqn:Hw.
  - destruct (JSON_stringify msg) as [line|e] eqn:E.
    + rewrite (write_forwarded msg s line Hw E).
      cbn [snd writable gzip]. unfold gzip_flush, gzip_write, stream_write.
      cbn [input fst snd needDrain buffered]. intros Hret. rewrite Hret.
      split; [apply orb_true_r | now destruct (buffered (input (gzip s)))].
    + rewrite (write_caught msg s e Hw E). cbn [snd writable gzip].
      rewrite Hw. discriminate.
  - rewrite (write_dropped msg s Hw). cbn [snd writable gzip]. intros _.
    now apply H.
Qed.

Lemma on_drain_wakeup_due (now : Z) (s : Session) :
  wakeup_due (snd (on_drain now s)).
Proof.
  rewrite on_drain_unfolded. unfold wakeup_due.
  destruct (0 <? dropCount s)%N; cbn [snd writable gzip]; [|discriminate].
  unfold gzip_flush, gzip_write, stream_write.
  cbn [input fst snd needDrain buffered]. intros Hret. rewrite Hret.
  split; [apply orb_true_r | now destruct (buffered (input (gzip s)))].
Qed.

Lemma deliver_sound (te : N * Event) (p : Process) :
  sound p -> sound (deliver te p).
Proof.
  destruct te as [t ev]. unfold deliver. cbn [fst snd]. intros H.
  assert (H1 : sound (fire_timer t p)).
  { unfold fire_timer. destruct (uncaught p), (timer p) as [d|]; try exact H.
    destruct (d <=? t)%N; [|exact H].
    destruct H as ([Hp|Hp] & Hc & Hw); unfold sound; cbn [promise session];
      rewrite Hp; cbn; auto. }
  revert H1. generalize (fire_timer t p) as q. clear p H.
  intros q (Hp & Hc & Hw). unfold step. destruct (uncaught q); [now split|].
  destruct ev as [e | msg | now].
  - now split.
  - destruct Hp as [Hp|Hp]; rewrite Hp; [split; [now left | now split]|].
    unfold sound, with_session. cbn [session promise].
    split; [now right | split].
    + now apply write_counter_rests.
    + now apply write_wakeup_due.
  - unfold gzip_consume, stream_consume.
    destruct (buffered (input (gzip (session q)))) as [|c rest] eqn:Eb.
    + unfold sound. cbn [promise session]. split; [exact Hp | split].
      * exact Hc.
      * unfold wakeup_due in *. cbn [writable gzip input]. exact Hw.
    + destruct rest as [|c2 rest].
      * destruct (needDrain (input (gzip (session q)))) eqn:En.
        -- unfold sound, with_session. cbn [promise session].
           split; [exact Hp | split].
           ++ intros _. apply on_drain_counter_zero.
           ++ apply on_drain_wakeup_due.
        -- unfold sound. cbn [promise session]. split; [exact Hp | split].
           ++ exact Hc.
           ++ unfold wakeup_due in *. cbn [writable gzip input needDrain].
              intros Hf. destruct (Hw Hf) as [Hn _]. congruence.
      * unfold sound. cbn [promise session]. split; [exact Hp | split].
        -- exact Hc.
        -- unfold wakeup_due in *. cbn [writable gzip input needDrain buffered].
           intros Hf. destruct (Hw Hf) as [Hn _]. split; [exact Hn | discriminate].
Qed.

Lemma Logger_sound (url secret : string) : sound (Logger url secret).
Proof.
  unfold sound. split; [now left | split].
  - intros _. reflexivity.
  - intros H. discriminate H.
Qed.

(** X2.  Whatever events arrive and in whatever order, the promise
    [Logger] of [index.ts] returned is pending or fulfilled with [write]:
    it is never rejected. *)
Theorem index_promise_is_never_rejected :
  forall (url secret : string) (evs : list (N * Event)) (e : Exn),
    promise (run evs (Logger url secret)) <> Rejected e.
Proof.
  intros url secret evs e.
  destruct (run_preserves sound deliver_sound evs _ (Logger_sound url secret))
    as ([Hp|Hp] & _); rewrite Hp; discriminate.
Qed.

(** X3.  In every state the process of [index.ts] can reach, the counter
    is 0 whenever the flag is up, and the flag is down only while a
    ['drain'] is due: the sink has answered [false] and still holds a
    chunk. *)
Theorem session_invariants :
  forall (url secret : string) (evs : list (N * Event)),
    let s := session (run evs (Logger url secret)) in
    (writable s = true -> dropCount s = 0%N)
    /\ (writable s = false ->
        needDrain (input (gzip s)) = true /\ buffered (input (gzip s)) <> []).
Proof.
  intros url secret evs s. subst s.
  destruct (run_preserves sound deliver_sound evs _ (Logger_sound url secret))
    as (_ & Hc & Hw).
  split; [exact Hc | exact Hw].
Qed.

Lemma deliver_alive (te : N * Event) (p : Process) :
  alive p -> is_terminal (snd te) = false -> alive (deliver te p).
Proof.
  destruct te as [t ev]. cbn [snd]. intros (Hu & Hp & Ht) Hq.
  unfold deliver. cbn [fst snd]. rewrite (fire_timer_idle t p Ht).
  unfold step. rewrite Hu. destruct ev as [e | msg | now]; [discriminate | |].
  - rewrite Hp. unfold alive, with_session. cbn [uncaught promise timer].
    now rewrite write_completes.
  - destruct (gzip_consume (gzip (session p))) as [[c drain] g].
    destruct drain; unfold alive, with_session; cbn [uncaught promise timer].
    + destruct (on_drain_counter_zero now
                  {| writable := writable (session p);
                     dropCount := dropCount (session p);
                     gzip := g; console := console (session p) |}) as [Hd _].
      now rewrite Hd.
    + auto.
Qed.

Lemma run_alive (evs : list (N * Event)) :
  forall p, alive p -> quiet evs = true -> alive (run evs p).
Proof.
  induction evs as [|te evs IH]; intros p Ha Hq.
  - exact Ha.
  - cbn [quiet forallb] in Hq. apply andb_true_iff in Hq as [Hq1 Hq2].
    rewrite run_cons. apply IH; [|exact Hq2].
    apply deliver_alive; [exact Ha | now apply negb_true_iff in Hq1].
Qed.

Lemma alive_start (url secret : string) (T : N) :
  (RESPONSE_GRACE_PERIOD <= T)%N -> alive (fire_timer T (Logger url secret)).
Proof.
  intros H. rewrite (fire_timer_at_deadline url secret T H).
  unfold alive. cbn. auto.
Qed.

(** X5.  A request event that arrives after the promise of [index.ts]
    was fulfilled is thrown all the same: the promise stays fulfilled, the
    [LoggerError] is an uncaught exception, and nothing that comes later
    (calls of [write] included) changes the session or the request. *)
Theorem late_request_event_ends_the_process :
  forall (url secret : string) (T t : N) (evs post : list (N * Event))
         (e : ReqEvent),
    (RESPONSE_GRACE_PERIOD <= T)%N ->
    quiet evs = true ->
    let p0 := fire_timer T (Logger url secret) in
    let p := run (evs ++ (t, Req e) :: post) p0 in
    promise p = Fulfilled write
    /\ uncaught p =
       match listener e with Throw x => Some x | Normal _ => None end
    /\ (exists message cause, uncaught p = Some (LoggerError message cause))
    /\ session p = session (run evs p0)
    /\ requests p = requests (run evs p0).
Proof.
  intros url secret T t evs post e HT Hq p0 p. subst p p0.
  pose proof (run_alive evs _ (alive_start url secret T HT) Hq)
    as (Hu & Hp & Ht).
  rewrite run_app, run_cons.
  set (q := run evs (fire_timer T (Logger url secret))) in *.
  unfold deliver. cbn [fst snd]. rewrite (fire_timer_idle t q Ht).
  assert (Hs : step (Req e) q = with_uncaught q (listener e)).
  { unfold step. now rewrite Hu. }
  rewrite Hs. destruct (listener_throws e) as (message & cause & Hl).
  rewrite (run_dead post _ (LoggerError message cause))
    by (unfold with_uncaught; rewrite Hl; reflexivity).
  unfold with_uncaught. cbn [promise uncaught session requests].
  rewrite Hl. repeat split; try assumption. eauto.
Qed.

End LiveProcess.

Section Progress.

Import Index.

Lemma accepted_consume (g g' : Gzip) (c : option string) (d : bool) :
  gzip_consume g = (c, d, g') -> accepted (input g') = accepted (input g).
Proof.
  unfold gzip_consume, stream_consume, accepted.
  destruct (buffered (input g)) as [|x rest] eqn:E; intros H;
    inversion H; subst; cbn [input consumed buffered].
  - now rewrite E.
  - now rewrite <- app_assoc.
Qed.

(** Handing over a buffer that ends in a due ['drain']. *)
Lemma finish_reports (t : N) (now : Z) :
  forall (b : list string) (p : Process),
    alive p ->
    buffered (input (gzip (session p))) = b ->
    b <> [] ->
    needDrain (input (gzip (session p))) = true ->
    dropCount (session (finish t now p)) = 0%N
    /\ accepted (input (gzip (session (finish t now p)))) =
       (accepted (input (gzip (session p)))
        ++ drain_chunks (dropCount (session p)) now)%list
    /\ alive (finish t now p).
Proof.
  induction b as [|c rest IH]; intros p Ha Hb Hne Hn; [congruence|].
  unfold finish. rewrite Hb. cbn [List.length repeat]. rewrite run_cons.
  pose proof (deliver_alive (t, Consume now) p Ha eq_refl) as Ha'.
  destruct Ha as (Hu & Hp & Ht).
  unfold deliver in *. cbn [fst snd] in *.
  rewrite (fire_timer_idle t p Ht) in *.
  unfold step in *. rewrite Hu in *.
  unfold gzip_consume, stream_consume in *. rewrite Hb in *.
  destruct rest as [|c2 rest].
  - (* the last chunk: 'drain' fires *)
    rewrite Hn in *. cbn [repeat List.length run fold_left].
    unfold with_session in *. cbn [session] in *.
    match goal with
    | |- context [on_drain now ?s0] =>
        pose proof (on_drain_effect now s0) as H
    end.
    destruct H as (_ & Hd & _ & Hacc & _).
    split; [exact Hd | split; [|exact Ha']].
    rewrite Hacc. cbn [gzip input dropCount]. unfold accepted.
    cbn [consumed buffered]. rewrite Hb. now rewrite app_nil_r.
  - (* more to hand over: nothing else moves *)
    match goal with
    | |- context [run _ ?q] => set (p' := q) in *
    end.
    assert (Hb' : buffered (input (gzip (session p'))) = c2 :: rest)
      by reflexivity.
    assert (Hn' : needDrain (input (gzip (session p'))) = true)
      by (cbn; exact Hn).
    destruct (IH p' Ha' Hb' ltac:(discriminate) Hn') as (Hd & Hacc & Hal).
    unfold finish in Hd, Hacc, Hal. rewrite Hb' in Hd, Hacc, Hal.
    split; [exact Hd | split; [|exact Hal]].
    rewrite Hacc. f_equal.
    unfold accepted. subst p'. cbn [session gzip input consumed buffered].
    rewrite Hb. now rewrite <- app_assoc.
Qed.

(** X6.  Once the flag of a live process is down with a ['drain'] due
    (as it is in every reachable state with the flag down), the compressor
    handing over the chunks it holds makes the listener run: the counter
    is back to 0 and what the compressor was given grows by exactly the
    warning for the records dropped, or by nothing if none was. *)
Theorem drops_are_reported_once_the_sink_empties :
  forall (p : Process) (t : N) (now : Z),
    alive p ->
    writable (session p) = false ->
    wakeup_due (session p) ->
    let q := finish t now p in
    dropCount (session q) = 0%N
    /\ accepted (input (gzip (session q))) =
       (accepted (input (gzip (session p)))
        ++ drain_chunks (dropCount (session p)) now)%list
    /\ uncaught q = None.
Proof.
  intros p t now Ha Hf Hw q. subst q.
  destruct (Hw Hf) as [Hn Hne].
  destruct (finish_reports t now _ p Ha eq_refl Hne Hn) as (Hd & Hacc & Hal).
  split; [exact Hd | split; [exact Hacc | now destruct Hal]].
Qed.

End Progress.

(* ------------------------------------------------------------------ *)
(** ** More on the [p-throttle] variant of [got.ts] *)

Section ThrottledWriter.

Import Throttled.

Lemma throttled_write_dropped (now : Z) (msg : LogMessage) (s : Session) :
  writable s = false ->
  write now msg s =
  (Normal tt, {| writable := false; dropCount := dropCount s + 1;
                 log := log s; throttle := throttle s; slots := slots s;
                 console := console s |}).
Proof.
  intros H. unfold write, bind, get_writable, get_dropCount, set_dropCount.
  cbv beta iota. rewrite H. cbv beta iota. now rewrite ?H.
Qed.

Lemma throttled_write_caught (now : Z) (msg : LogMessage) (s : Session)
      (e : Exn) :
  writable s = true ->
  JSON_stringify msg = Throw e ->
  write now msg s =
  (Normal tt,
   {| writable := true; dropCount := dropCount s; log := log s;
      throttle := throttle s; slots := slots s;
      console :=
        (console s ++
         [console_error_entry
            "Failed to write to logging stream, dropping message" e])%list |}).
Proof.
  intros Hw He.
  unfold write, bind, get_writable, try_catch, lift, console_error.
  cbv beta iota. rewrite Hw. cbv beta iota. rewrite He. cbv beta iota.
  now rewrite ?Hw.
Qed.

(** X7.  In the throttled variant a record that is not forwarded costs no
    flush: with the flag down [write] only adds one to the counter, and
    when serialization throws it only logs; in both cases the buffer, the
    limiter and the flush slots are as before and the call completes. *)
Theorem throttled_unforwarded_write_asks_no_flush :
  (forall (now : Z) (msg : LogMessage) (s : Session),
      writable s = false ->
      write now msg s =
      (Normal tt, {| writable := false; dropCount := dropCount s + 1;
                     log := log s; throttle := throttle s; slots := slots s;
                     console := console s |}))
  /\ (forall (now : Z) (msg : LogMessage) (s : Session) (e : Exn),
        writable s = true ->
        JSON_stringify msg = Throw e ->
        write now msg s =
        (Normal tt,
         {| writable := true; dropCount := dropCount s; log := log s;
            throttle := throttle s; slots := slots s;
            console :=
              (console s ++
               [console_error_entry
                  "Failed to write to logging stream, dropping message" e])%list |})).
Proof.
  split.
  - exact throttled_write_dropped.
  - exact throttled_write_caught.
Qed.

Lemma flush_unfolded (now : Z) (s : Session) :
  flush now s =
  (Normal tt,
   {| writable := writable s; dropCount := dropCount s; log := log s;
      throttle := snd (windowedDelay now (throttle s));
      slots := (slots s ++ [(now + fst (windowedDelay now (throttle s)))%Z])%list;
      console := console s |}).
Proof. unfold flush. now destruct (windowedDelay now (throttle s)). Qed.

Lemma throttled_stringify_warning (n : N) (now : Z) :
  JSON_stringify (warning n now) = Normal (Index.warning_line n now).
Proof. exact (stringify_warning n now). Qed.

Lemma accepted_stream_write (chunk : string) (w : Writable) :
  accepted (snd (stream_write chunk w)) = (accepted w ++ [chunk])%list.
Proof. unfold stream_write, accepted. cbn. now rewrite app_assoc. Qed.

(** X8.  The ['drain'] listener of the throttled variant, from any
    session: it never throws, asks for a flush first, then pushes the
    warning line for the counter when that was positive (which asks for a
    second flush) and nothing otherwise, and leaves the counter at 0 and
    the console alone. *)
Theorem throttled_drain_listener_reports_drops :
  forall (now : Z) (s : Session),
    let n := dropCount s in
    let s' := snd (on_drain now s) in
    fst (on_drain now s) = Normal tt
    /\ dropCount s' = 0%N
    /\ console s' = console s
    /\ accepted (log s') =
       (accepted (log s) ++ Index.drain_chunks n now)%list
    /\ List.length (slots s') =
       (List.length (slots s) + if (0 <? n)%N then 2 else 1)%nat.
Proof.
  intros now s n s'. subst n s'.
  unfold on_drain, bind, set_writable, get_dropCount, set_dropCount, ret.
  cbv beta iota. rewrite flush_unfolded. cbv beta iota.
  cbn [writable dropCount log throttle slots console].
  unfold Index.drain_chunks.
  destruct (0 <? dropCount s)%N eqn:E.
  - rewrite (throttled_write_forwarded now (warning (dropCount s) now) _
               (Index.warning_line (dropCount s) now))
      by (try reflexivity; apply throttled_stringify_warning).
    rewrite flush_unfolded.
    cbn [fst snd writable dropCount log throttle slots console].
    repeat split.
    + apply accepted_stream_write.
    + rewrite !length_app. cbn. lia.
  - apply N.ltb_ge in E. cbn [fst snd dropCount console log slots].
    repeat split; try lia.
    + now rewrite app_nil_r.
    + rewrite length_app. cbn. lia.
Qed.

End ThrottledWriter.

Section Burst.

Import Throttled.

Lemma slots_flush_burst_running (t : Z) :
  forall (k : nat) (s : Session) (c : Z),
    limit (throttle s) = 1%Z ->
    interval (throttle s) = ZLIB_TIMEOUT ->
    activeCount (throttle s) = 1%Z ->
    currentTick (throttle s) = c ->
    (t - ZLIB_TIMEOUT <= c)%Z ->
    slots (flush_burst k t s) =
    (slots s ++ ladder k (c + ZLIB_TIMEOUT) ZLIB_TIMEOUT)%list.
Proof.
  induction k as [|k IH]; intros s c Hl Hi Ha Hc Hle; cbn [flush_burst ladder].
  - now rewrite app_nil_r.
  - rewrite flush_unfolded. cbn [snd].
    assert (Hw : windowedDelay t (throttle s) =
                 ((c + ZLIB_TIMEOUT - t)%Z,
                  {| limit := 1; interval := ZLIB_TIMEOUT;
                     currentTick := (c + ZLIB_TIMEOUT)%Z; activeCount := 1 |})).
    { unfold windowedDelay. rewrite Hl, Hi, Ha, Hc.
      assert (E : (ZLIB_TIMEOUT <? t - c)%Z = false)
        by (apply Z.ltb_ge; unfold ZLIB_TIMEOUT in *; lia).
      rewrite E. reflexivity. }
    rewrite Hw. cbn [fst snd].
    rewrite (IH _ (c + ZLIB_TIMEOUT)%Z) by
      (cbn [throttle limit interval activeCount currentTick];
       try reflexivity; unfold ZLIB_TIMEOUT in *; lia).
    cbn [slots]. rewrite <- app_assoc. cbn [List.app].
    do 2 f_equal. lia.
Qed.

(** X9.  A burst in the throttled variant: [k] flushes asked for at the
    same clock [t] are set to run at [t], [t + 100], ..., [t + 100 (k - 1)]
    -- none is merged with another, and the last one waits 100 ms for
    every call before it. *)
Theorem burst_of_flushes_is_spread_out :
  forall (k : nat) (t : Z),
    (ZLIB_TIMEOUT < t)%Z ->
    slots (flush_burst k t initial) = ladder k t ZLIB_TIMEOUT
    /\ List.length (slots (flush_burst k t initial)) = k
    /\ last_slot (slots (flush_burst (S k) t initial)) =
       Some (t + ZLIB_TIMEOUT * Z.of_nat k)%Z.
Proof.
  assert (Hlen : forall k t d, List.length (ladder k t d) = k).
  { induction k as [|k IH]; intros t d; cbn; [reflexivity | now rewrite IH]. }
  assert (Hlast : forall k t d,
             last_slot (ladder (S k) t d) = Some (t + d * Z.of_nat k)%Z).
  { induction k as [|k IH]; intros t d.
    - cbn. f_equal. lia.
    - change (ladder (S (S k)) t d) with (t :: ladder (S k) (t + d)%Z d).
      cbn [ladder]. rewrite last_slot_cons.
      change ((t + d)%Z :: ladder k (t + d + d)%Z d)
        with (ladder (S k) (t + d)%Z d).
      rewrite IH. f_equal. lia. }
  assert (Hmain : forall k t, (ZLIB_TIMEOUT < t)%Z ->
             slots (flush_burst k t initial) = ladder k t ZLIB_TIMEOUT).
  { intros [|k] t Ht; [reflexivity|].
    cbn [flush_burst ladder]. rewrite flush_unfolded. cbn [snd].
    assert (Hw : windowedDelay t (throttle initial) =
                 (0%Z, {| limit := 1; interval := ZLIB_TIMEOUT;
                          currentTick := t; activeCount := 1 |})).
    { unfold windowedDelay, initial, pThrottle.
      cbn [throttle limit interval activeCount currentTick].
      assert (E : (ZLIB_TIMEOUT <? t - 0)%Z = true)
        by (apply Z.ltb_lt; unfold ZLIB_TIMEOUT in *; lia).
      now rewrite E. }
    rewrite Hw. cbn [fst snd].
    rewrite (slots_flush_burst_running t k _ t) by
      (cbn [throttle limit interval activeCount currentTick];
       try reflexivity; unfold ZLIB_TIMEOUT in *; lia).
    cbn [slots initial List.app]. f_equal. lia. }
  intros k t Ht. rewrite !Hmain by exact Ht.
  split; [reflexivity | split; [apply Hlen | apply Hlast]].
Qed.

End Burst.

Section Timelines.





Lemma http_calls_console {V} (cs : list Http.Callback) (h : Http.Handshake V) :
  Http.console (fold_left (fun q c => Http.call c q) cs h) =
  (Http.console h ++ flat_map Http.lines_of cs)%list.
Proof.
  revert h. induction cs as [|c cs IH]; intros h; cbn [fold_left flat_map].
  - now rewrite app_nil_r.
  - rewrite IH. destruct c as [e | [cause|]];
      cbn [Http.call Http.listener Http.pipeline_callback Http.console
           Http.lines_of List.app];
      now rewrite <- ?app_assoc.
Qed.

Lemma http_calls_promise {V} (cs : list Http.Callback) (h : Http.Handshake V) :
  Http.promise (fold_left (fun q c => Http.call c q) cs h) =
  match Http.promise h with
  | Pending =>
      match Http.first_rejection cs with
      | Some x => Rejected x
      | None => Pending
      end
  | settled => settled
  end.
Proof.
  revert h. induction cs as [|c cs IH]; intros h;
    cbn [fold_left Http.first_rejection].
  - now destruct (Http.promise h).
  - rewrite IH. destruct c as [e | [cause|]];
      cbn [Http.call Http.listener Http.pipeline_callback Http.promise
           Http.rejection_of];
      destruct (Http.promise h); reflexivity.
Qed.

Lemma http_calls_ended {V} (cs : list Http.Callback) (h : Http.Handshake V) :
  Http.ended (fold_left (fun q c => Http.call c q) cs h) =
  Http.ended h
  || existsb (fun c => match c with
                       | Http.on_pipeline (Some _) => true
                       | _ => false
                       end) cs.
Proof.
  revert h. induction cs as [|c cs IH]; intros h; cbn [fold_left existsb].
  - now rewrite orb_false_r.
  - rewrite IH. destruct c as [e | [cause|]];
      cbn [Http.call Http.listener Http.pipeline_callback Http.ended].
    + reflexivity.
    + now rewrite orb_true_r.
    + reflexivity.
Qed.

Lemma http_calls_unhandled {V} (cs : list Http.Callback) (h : Http.Handshake V) :
  Http.unhandled (fold_left (fun q c => Http.call c q) cs h) = Http.unhandled h.
Proof.
  revert h. induction cs as [|c cs IH]; intros h; cbn [fold_left];
    [reflexivity|].
  rewrite IH. now destruct c as [e | [cause|]].
Qed.

(** X11.  In the [http] variant, once [http.request] has accepted the url
    and the secret, every request event and every failure the pipeline
    reports is written to the console, in order of arrival, also after
    the promise is settled -- so a failure after the handshake is still
    seen -- while the promise is settled once: rejected with the error of
    the first rejecting callback that runs before [resolve(write)],
    fulfilled otherwise.  The request is ended by the code exactly when
    the pipeline has reported a failure, and no exception is left
    unhandled.  When [http.request] throws instead, nothing is written,
    the promise stays pending and what was thrown is left unhandled. *)
Theorem http_callbacks_log_every_event :
  forall (V : Type) (protocol_of : string -> option string)
         (url secret : string) (write : V) (early late : list Http.Callback),
    let h := Http.timeline protocol_of url secret write early late in
    match Http.http_request_error protocol_of url
            (Http.Logger_options secret) with
    | None =>
        Http.console h = flat_map Http.lines_of (early ++ late)
        /\ Http.promise h =
           match Http.first_rejection early with
           | Some x => Rejected x
           | None => Fulfilled write
           end
        /\ Http.ended h =
           existsb (fun c => match c with
                             | Http.on_pipeline (Some _) => true
                             | _ => false
                             end) (early ++ late)
        /\ Http.unhandled h = None
    | Some e =>
        Http.console h = []
        /\ Http.promise h = Pending
        /\ Http.ended h = false
        /\ Http.unhandled h = Some e
    end.
Proof.
  intros V protocol_of url secret write early late h. subst h.
  unfold Http.timeline.
  destruct (Http.http_request_error protocol_of url (Http.Logger_options secret));
    [repeat split|].
  split; [|split; [|split]].
  - rewrite http_calls_console. cbn [Http.console].
    rewrite http_calls_console. cbn [Http.console List.app].
    now rewrite flat_map_app.
  - rewrite http_calls_promise. cbn [Http.promise].
    rewrite http_calls_promise. cbn [Http.promise].
    destruct (Http.first_rejection early); reflexivity.
  - rewrite http_calls_ended. cbn [Http.ended].
    rewrite http_calls_ended. cbn [Http.ended orb].
    now rewrite existsb_app.
  - rewrite http_calls_unhandled. cbn [Http.unhandled].
    now rewrite http_calls_unhandled.
Qed.

(** A 401 that closes the connection under the pipeline: three lines on
    the console, the promise rejected with the error of the response. *)
Example http_unauthorized_then_closed :
  let h := Http.timeline Index.sample_protocol_of
             "http://localhost:3000/device/v2/x/log-stream" "key" tt
             [ Http.on_request (response 401);
               Http.on_pipeline (Some "Premature close");
               Http.on_request close ] [] in
  Http.console h =
    [ ("Received response", Some (Http.number_arg 401));
      ("Gzip error", Some (Http.error_arg "Premature close"));
      ("Request closed", None) ]
  /\ Http.promise h =
     Rejected (LoggerError
                 "Received response from log backend with status code: 401" None)
  /\ Http.ended h = true.
Proof. repeat split. Qed.

(** The [http] variant refuses an https url. *)
Example http_refuses_https_url :
  let h := Http.timeline Index.sample_protocol_of
             "https://api.balena-cloud.com/device/v2/x/log-stream" "key" tt
             [] [] in
  Http.promise h = Pending
  /\ Http.unhandled h =
     Some (TypeError ("Protocol " ++ dq ++ "https:" ++ dq
                      ++ " not supported. Expected " ++ dq ++ "http:" ++ dq)).
Proof. repeat split. Qed.

End Timelines.

(* ------------------------------------------------------------------ *)
(** ** The entry point: environment, service ids, the message loop *)

Section ServiceIds.

Import Main.

Lemma digit_is_ordinary (c : ascii) :
  is_digit c = true ->
  is_whitespace c = false /\ Ascii.eqb c "-" = false
  /\ Ascii.eqb c "+" = false /\ Ascii.eqb c "," = false.
Proof.
  destruct c as [[] [] [] [] [] [] [] []]; cbn; intros H;
    (discriminate H || auto).
Qed.

Lemma all_digits_string_of_uint (d : Decimal.uint) :
  all_digits (NilEmpty.string_of_uint d) = true.
Proof. induction d; cbn; auto. Qed.

Lemma NatToString_digits (n : N) :
  all_digits (NatToString n) = true /\ NatToString n <> "".
Proof.
  unfold NatToString, NilZero.string_of_uint.
  destruct (N.to_uint n) eqn:E; (split; [|cbn; discriminate]);
    try reflexivity; rewrite <- E at 1;
    try apply all_digits_string_of_uint.
  all: rewrite E; apply (all_digits_string_of_uint _).
Qed.

Lemma digits_value_NatToString (n : N) : digits_value (NatToString n) = n.
Proof.
  unfold digits_value, NatToString, NilZero.string_of_uint.
  destruct (N.to_uint n) eqn:E;
    [ cbn; rewrite <- (DecimalN.Unsigned.of_to n), E; reflexivity | .. ];
    rewrite <- E, NilEmpty.usu; apply DecimalN.Unsigned.of_to.
Qed.

Lemma leading_digits_all (s : string) :
  all_digits s = true -> leading_digits s = s.
Proof.
  induction s as [|c r IH]; cbn; intros H; [reflexivity|].
  apply andb_true_iff in H as [Hc Hr]. now rewrite Hc, IH.
Qed.

Lemma trim_end_digits (s : string) : all_digits s = true -> trim_end s = s.
Proof.
  induction s as [|c r IH]; cbn; intros H; [reflexivity|].
  apply andb_true_iff in H as [Hc Hr]. rewrite (IH Hr).
  destruct (digit_is_ordinary c Hc) as [Hw _]. rewrite Hw.
  now destruct r.
Qed.

Lemma trim_end_spaces (s : string) (b : nat) :
  trim_end (s ++ spaces b) = trim_end s.
Proof.
  induction s as [|c r IH]; cbn [append trim_end].
  - induction b as [|b IHb]; [reflexivity|].
    cbn [spaces trim_end]. now rewrite IHb.
  - now rewrite IH.
Qed.

Lemma trim_start_spaces (s : string) (a : nat) :
  trim_start (spaces a ++ s) = trim_start s.
Proof. induction a as [|a IH]; [reflexivity | exact IH]. Qed.

Lemma trim_start_digits (s : string) :
  all_digits s = true -> trim_start s = s.
Proof.
  destruct s as [|c r]; cbn; intros H; [reflexivity|].
  apply andb_true_iff in H as [Hc _].
  destruct (digit_is_ordinary c Hc) as [Hw _]. now rewrite Hw.
Qed.

Lemma parseInt_NatToString (n : N) :
  parseInt (NatToString n) = exact (Z.of_N n).
Proof.
  destruct (NatToString_digits n) as [Hd Hne].
  unfold parseInt. rewrite (trim_start_digits _ Hd).
  pose proof (digits_value_NatToString n) as Hv.
  destruct (NatToString n) as [|c r] eqn:E; [congruence|].
  cbn [all_digits] in Hd. apply andb_true_iff in Hd as [Hc Hr].
  destruct (digit_is_ordinary c Hc) as (_ & Hm & Hp & _).
  rewrite Hm, Hp. cbn [leading_digits]. rewrite Hc, (leading_digits_all r Hr).
  now rewrite Hv.
Qed.

Lemma parseInt_trim_entry (a b : nat) (n : N) :
  parseInt (trim (spaces a ++ NatToString n ++ spaces b)) = exact (Z.of_N n).
Proof.
  destruct (NatToString_digits n) as [Hd Hne].
  unfold trim. rewrite trim_start_spaces.
  assert (Hs : trim_start (NatToString n ++ spaces b)
               = NatToString n ++ spaces b).
  { destruct (NatToString n) as [|c r]; [congruence|].
    cbn [all_digits] in Hd. apply andb_true_iff in Hd as [Hc _].
    destruct (digit_is_ordinary c Hc) as [Hw _]. cbn. now rewrite Hw. }
  rewrite Hs, trim_end_spaces, (trim_end_digits _ Hd).
  apply parseInt_NatToString.
Qed.

Lemma has_comma_digits (s : string) :
  all_digits s = true -> has_char "," s = false.
Proof.
  induction s as [|c r IH]; cbn; intros H; [reflexivity|].
  apply andb_true_iff in H as [Hc Hr].
  destruct (digit_is_ordinary c Hc) as (_ & _ & _ & Hk).
  now rewrite Hk, IH.
Qed.

Lemma has_comma_spaces (a : nat) : has_char "," (spaces a) = false.
Proof. induction a as [|a IH]; [reflexivity | exact IH]. Qed.

Lemma has_comma_entry (o : option (nat * N * nat)) :
  has_char "," (entry_text o) = false.
Proof.
  destruct o as [[[a n] b]|]; [|reflexivity]. unfold entry_text.
  rewrite !has_char_app, !has_comma_spaces.
  now rewrite (has_comma_digits _ (proj1 (NatToString_digits n))).
Qed.

Lemma split_no_comma (s : string) :
  has_char "," s = false -> split "," s = [s].
Proof.
  induction s as [|c r IH]; cbn [has_char split]; intros H; [reflexivity|].
  apply orb_false_iff in H as [Hc Hr]. rewrite Hc, (IH Hr). reflexivity.
Qed.

Lemma split_piece (a rest : string) :
  has_char "," a = false ->
  split "," (a ++ "," ++ rest) = a :: split "," rest.
Proof.
  induction a as [|c r IH]; intros H.
  - reflexivity.
  - cbn [has_char] in H. apply orb_false_iff in H as [Hc Hr].
    cbn [append split]. rewrite Hc.
    change (String "," rest) with ("," ++ rest). now rewrite (IH Hr).
Qed.

Lemma split_join (strs : list string) :
  strs <> [] ->
  Forall (fun x => has_char "," x = false) strs ->
  split "," (join "," strs) = strs.
Proof.
  intros Hne H. induction H as [|x strs Hx Hs IH]; [congruence|].
  destruct strs as [|y strs].
  - cbn [join]. now apply split_no_comma.
  - change (join "," (x :: y :: strs)) with (x ++ "," ++ join "," (y :: strs)).
    rewrite (split_piece _ _ Hx), IH by discriminate. reflexivity.
Qed.

Lemma serviceIds_pieces (u k ep d : option string) (s : string) :
  serviceIds {| UUID := u; API_KEY := k; API_ENDPOINT := ep;
                INITIAL_DELAY := d; SERVICE_ID := Some s |} =
  map (fun x => parseInt (trim x)) (filter nonempty (split "," s)).
Proof. unfold serviceIds. cbn [SERVICE_ID]. now destruct s. Qed.

Lemma exact_small (n : N) :
  (Z.of_N n <= MAX_EXACT)%Z -> exact (Z.of_N n) = Int (Z.of_N n).
Proof.
  intros H. unfold exact.
  replace (Z.abs (Z.of_N n) <=? MAX_EXACT)%Z with true; [reflexivity|].
  symmetry. apply Z.leb_le. rewrite Z.abs_eq by lia. exact H.
Qed.

(** X13.  The service ids read from [SERVICE_ID]: for a comma-separated
    list whose entries are decimal ids of at most [2 ^ 53] (the integers
    a double holds exactly), blanks allowed around them, and possibly
    nothing between two commas, the ids come out as written, in order,
    and the empty entries are left out; an unset or empty variable gives
    no id. *)
Theorem service_ids_are_read_back :
  forall (u k ep d : option string) (items : list (option (nat * N * nat))),
    Forall (fun o => match o with
                     | Some (_, n, _) => (Z.of_N n <= MAX_EXACT)%Z
                     | None => True
                     end) items ->
    serviceIds {| UUID := u; API_KEY := k; API_ENDPOINT := ep;
                  INITIAL_DELAY := d;
                  SERVICE_ID := Some (join "," (map entry_text items)) |}
      = flat_map entry_id items
    /\ serviceIds {| UUID := u; API_KEY := k; API_ENDPOINT := ep;
                     INITIAL_DELAY := d; SERVICE_ID := None |} = []
    /\ serviceIds {| UUID := u; API_KEY := k; API_ENDPOINT := ep;
                     INITIAL_DELAY := d; SERVICE_ID := Some "" |} = [].
Proof.
  intros u k ep d items Hsmall. split; [|split; reflexivity].
  rewrite serviceIds_pieces.
  assert (Hsplit : filter nonempty (split "," (join "," (map entry_text items)))
                   = filter nonempty (map entry_text items)).
  { destruct items as [|o items]; [reflexivity|].
    rewrite split_join; [reflexivity | discriminate |].
    apply Forall_map, Forall_forall. intros x _. apply has_comma_entry. }
  rewrite Hsplit. clear Hsplit.
  induction Hsmall as [|o items Ho Hsmall IH]; [reflexivity|].
  cbn [map flat_map filter].
  destruct o as [[[a n] b]|]; cbn [entry_id List.app].
  - assert (Hn : nonempty (entry_text (Some (a, n, b))) = true).
    { unfold entry_text. destruct a; [|reflexivity]. cbn [spaces append].
      destruct (NatToString_digits n) as [_ Hne].
      destruct (NatToString n); [congruence | reflexivity]. }
    rewrite Hn. cbn [map]. rewrite IH. f_equal.
    unfold entry_text. rewrite parseInt_trim_entry. now apply exact_small.
  - cbn [entry_text nonempty]. exact IH.
Qed.

(** An id above [2 ^ 53] is where the reading stops being followed: the
    code's double is a rounded one there. *)
Example service_id_beyond_doubles :
  parseInt "9007199254740992" = Int 9007199254740992
  /\ parseInt "9007199254740993" = Beyond.
Proof. split; reflexivity. Qed.

End ServiceIds.

Section EntryPoint.

Import Main.

(** X12.  The module level of [index.ts]: it ends the process with the
    UUID message when [UUID] is unset or empty (whatever else is set),
    with the API_KEY message when only [API_KEY] is; otherwise the
    constructor is called with [<endpoint>/device/v2/<UUID>/log-stream],
    the endpoint being [API_ENDPOINT] or, when that is unset or empty,
    https://api.balena-cloud.com, and with [API_KEY] as the secret, and
    the promise is pending.  When [https.request] accepts the two, the one
    request opened is a POST to that url with the key as the bearer token;
    when it throws (an endpoint that is not https, say), no request is
    opened and what it threw ends the process. *)
Theorem start_needs_uuid_and_key :
  forall (protocol_of : string -> option string) (env : Env),
    match start protocol_of env with
    | Exit m =>
        (truthy (UUID env) = false
         /\ m = "Please provide a UUID environment variable with the device identifier")
        \/ (truthy (UUID env) = true /\ truthy (API_KEY env) = false
            /\ m = "Please provide an API_KEY environment variable with the device credentials")
    | Started p =>
        exists u k,
          let url := or_else (API_ENDPOINT env) "https://api.balena-cloud.com"
                     ++ "/device/v2/" ++ u ++ "/log-stream" in
          UUID env = Some u /\ API_KEY env = Some k /\ u <> "" /\ k <> ""
          /\ p = Index.Logger_call protocol_of url k
          /\ Index.promise p = Pending
          /\ match Index.https_request_error protocol_of url
                     (Index.Logger_options k) with
             | None =>
                 map Index.sent (Index.requests p) =
                 [ [ Index.Head "POST" url
                       [ ("Authorization", "Bearer " ++ k);
                         ("Content-Type", "application/x-ndjson");
                         ("Content-Encoding", "gzip");
                         ("Keep-Alive", "timeout=59") ] ] ]
                 /\ Index.uncaught p = None
             | Some e =>
                 Index.requests p = [] /\ Index.uncaught p = Some e
             end
    end.
Proof.
  intros protocol_of [u k ep d sid]. unfold start, constants. cbn [UUID API_KEY
    API_ENDPOINT INITIAL_DELAY].
  destruct u as [[|c r]|]; cbn [truthy negb]; try (left; now split).
  destruct k as [[|c' r']|]; cbn [truthy negb];
    try (right; repeat split; reflexivity).
  exists (String c r), (String c' r').
  cbn [LOG_STREAM api_key or_else].
  split; [reflexivity|]. split; [reflexivity|].
  split; [discriminate|]. split; [discriminate|].
  split; [reflexivity|].
  unfold Index.Logger_call.
  destruct (Index.https_request_error protocol_of _ _);
    repeat split.
Qed.

(** With [API_ENDPOINT=http://localhost:3000], the address of the mock
    server, [https.request] throws: no request, a pending promise, and
    the process ends on the [TypeError]. *)
Example start_refuses_http_endpoint :
  start Index.sample_protocol_of
    {| UUID := Some "x"; API_KEY := Some "key";
       API_ENDPOINT := Some "http://localhost:3000";
       INITIAL_DELAY := None; SERVICE_ID := None |}
  = Started
      (Index.refused
         (TypeError ("Protocol " ++ dq ++ "http:" ++ dq
                     ++ " not supported. Expected " ++ dq ++ "https:" ++ dq))).
Proof. reflexivity. Qed.

Lemma exact_in_range (z : Z) :
  (- MAX_EXACT <= z <= MAX_EXACT)%Z -> exact z = Int z.
Proof.
  intros H. unfold exact.
  replace (Z.abs z <=? MAX_EXACT)%Z with true; [reflexivity|].
  symmetry. apply Z.leb_le. lia.
Qed.





(** At [2 ^ 53] the next delay is no integer a double holds, and the
    turns are not followed any further: the code's [++delay] rounds
    there. *)
Example message_loop_beyond_doubles :
  turns [] [ {| utc := "Thu, 01 Jan 1970 00:00:00 GMT"; millis := 0 |} ]
        {| count := Int 0; delay := Int MAX_EXACT |} = None.
Proof. reflexivity. Qed.

End EntryPoint.

(* ------------------------------------------------------------------ *)
(** ** The whole life of the process of [index.ts] *)

Section WholeLife.

Import Index.

Lemma deliver_quiet_uncaught (te : N * Event) (p : Process) :
  sound p -> uncaught p = None -> is_terminal (snd te) = false ->
  uncaught (deliver te p) = None.
Proof.
  destruct te as [t ev]. cbn [snd]. intros (Hp & _) Hu Hq.
  unfold deliver. cbn [fst snd].
  assert (Hf : uncaught (fire_timer t p) = None
               /\ (promise (fire_timer t p) = Pending
                   \/ promise (fire_timer t p) = Fulfilled write)).
  { unfold fire_timer. rewrite Hu. destruct (timer p) as [d|]; [|now split].
    destruct (d <=? t)%N; [|now split]. cbn [uncaught promise].
    split; [reflexivity|]. destruct Hp as [Hp|Hp]; rewrite Hp; cbn; auto. }
  revert Hf. generalize (fire_timer t p) as q. intros q [Hu' Hp'].
  unfold step. rewrite Hu'. destruct ev as [e | msg | now]; [discriminate | |].
  - destruct Hp' as [Hp'|Hp']; rewrite Hp'; [exact Hu'|].
    unfold with_session. cbn [uncaught]. now rewrite write_completes.
  - destruct (gzip_consume (gzip (session q))) as [[c drain] g].
    destruct drain; [|reflexivity].
    unfold with_session. cbn [uncaught].
    match goal with
    | |- context [on_drain now ?s0] =>
        destruct (on_drain_counter_zero now s0) as [Hd _]
    end.
    now rewrite Hd.
Qed.

Lemma deliver_request_uncaught (t : N) (e : ReqEvent) (p : Process) :
  uncaught p = None ->
  uncaught (deliver (t, Req e) p) = thrown (listener e).
Proof.
  intros Hu. unfold deliver. cbn [fst snd].
  assert (Hf : uncaught (fire_timer t p) = None).
  { unfold fire_timer. rewrite Hu. destruct (timer p) as [d|]; [|exact Hu].
    now destruct (d <=? t)%N. }
  unfold step. rewrite Hf. unfold with_uncaught. cbn [uncaught].
  destruct (listener_throws e) as (m & c & Hl). now rewrite Hl.
Qed.

Lemma fire_timer_sound (t : N) (p : Process) :
  sound p -> sound (fire_timer t p).
Proof.
  intros H. unfold fire_timer.
  destruct (uncaught p), (timer p) as [d|]; try exact H.
  destruct (d <=? t)%N; [|exact H].
  destruct H as ([Hp|Hp] & Hc & Hw); unfold sound; cbn [promise session];
    rewrite Hp; cbn; auto.
Qed.

Lemma fire_timer_uncaught (t : N) (p : Process) :
  uncaught (fire_timer t p) = uncaught p.
Proof.
  unfold fire_timer. destruct (uncaught p) eqn:E, (timer p) as [d|];
    try exact E. now destruct (d <=? t)%N.
Qed.

Lemma befall_dead (ti : N * Incident) (p : Process) (e : Exn) :
  uncaught p = Some e -> befall ti p = p.
Proof.
  intros H. destruct ti as [t [ev | cause]]; unfold befall; cbn [fst snd].
  - unfold deliver. cbn [fst snd].
    now rewrite (fire_timer_dead _ _ _ H), (step_dead _ _ _ H).
  - rewrite (fire_timer_dead _ _ _ H). now rewrite H.
Qed.

Lemma life_dead (incidents : list (N * Incident)) (p : Process) (e : Exn) :
  uncaught p = Some e -> life incidents p = p.
Proof.
  revert p. induction incidents as [|ti incidents IH]; intros p H.
  - reflexivity.
  - unfold life in *. cbn [fold_left]. rewrite (befall_dead _ _ _ H).
    now apply IH.
Qed.

Lemma life_uncaught (incidents : list (N * Incident)) :
  forall p : Process,
    sound p -> uncaught p = None ->
    uncaught (life incidents p) = first_fatal incidents.
Proof.
  induction incidents as [|[t i] incidents IH]; intros p Hs Hu; [exact Hu|].
  change (life ((t, i) :: incidents) p)
    with (life incidents (befall (t, i) p)).
  cbn [first_fatal]. destruct i as [[e | msg | now] | [cause|]];
    unfold befall; cbn [fst snd fatal].
  - pose proof (deliver_request_uncaught t e p Hu) as Hd.
    destruct (listener_throws e) as (m & c & Hl).
    rewrite Hl in *. cbn [thrown] in *.
    now rewrite (life_dead incidents _ _ Hd).
  - apply IH.
    + now apply deliver_sound.
    + now apply deliver_quiet_uncaught.
  - apply IH.
    + now apply deliver_sound.
    + now apply deliver_quiet_uncaught.
  - rewrite fire_timer_uncaught, Hu. cbn [pipeline_callback thrown].
    rewrite life_dead
      with (e := LoggerError "Failed to create gzip stream"
                   (Some (SystemError cause)));
      reflexivity.
  - rewrite fire_timer_uncaught, Hu. cbn [pipeline_callback thrown].
    apply IH.
    + apply (fire_timer_sound t) in Hs. exact Hs.
    + cbn [with_uncaught uncaught]. now rewrite fire_timer_uncaught.
Qed.

(** X15.  What ends the process of [index.ts] with an uncaught exception:
    [https.request] throwing on the url or the secret, in which case its
    [TypeError] is the exception whatever follows; otherwise the first
    request event or pipeline failure to arrive, before or after the
    handshake, the [LoggerError] thrown for it being the exception.
    Every request event does so.  Without any of these nothing is ever
    uncaught -- neither [write] nor the ['drain'] listener lets an
    exception out. *)
Theorem process_ends_at_the_first_throw :
  forall (protocol_of : string -> option string) (url secret : string)
         (incidents : list (N * Incident)),
    uncaught (life incidents (Logger_call protocol_of url secret)) =
      match https_request_error protocol_of url (Logger_options secret) with
      | Some e => Some e
      | None => first_fatal incidents
      end
    /\ (forall e : ReqEvent,
          exists message cause,
            fatal (Event_of (Req e)) = Some (LoggerError message cause))
    /\ (forall cause : string,
          fatal (Pipeline (Some cause)) =
          Some (LoggerError "Failed to create gzip stream"
                  (Some (SystemError cause))))
    /\ (forall (msg : LogMessage) (now : Z),
          fatal (Event_of (Call msg)) = None
          /\ fatal (Event_of (Consume now)) = None
          /\ fatal (Pipeline None) = None).
Proof.
  intros protocol_of url secret incidents. split; [|split; [|split]].
  - unfold Logger_call.
    destruct (https_request_error protocol_of url (Logger_options secret))
      as [e|].
    + now rewrite (life_dead incidents (refused e) e eq_refl).
    + apply life_uncaught; [apply Logger_sound | reflexivity].
  - intros e. cbn [fatal]. destruct (listener_throws e) as (m & c & Hl).
    exists m, c. now rewrite Hl.
  - reflexivity.
  - repeat split.
Qed.

Lemma write_consumed (msg : LogMessage) (s : Session) :
  consumed (input (gzip (snd (write msg s)))) = consumed (input (gzip s))
  /\ exists more,
       accepted (input (gzip (snd (write msg s)))) =
       (accepted (input (gzip s)) ++ more)%list.
Proof.
  destruct (writable s) eqn:Hw.
  - destruct (JSON_stringify msg) as [line|e] eqn:E.
    + rewrite (write_forwarded msg s line Hw E). cbn [snd gzip].
      unfold gzip_flush. cbn [input]. split.
      * unfold gzip_write, stream_write. reflexivity.
      * eexists. apply accepted_gzip_write.
    + rewrite (write_caught msg s e Hw E). cbn [snd gzip].
      split; [reflexivity | exists []; now rewrite app_nil_r].
  - rewrite (write_dropped msg s Hw). cbn [snd gzip].
    split; [reflexivity | exists []; now rewrite app_nil_r].
Qed.

Lemma on_drain_consumed (now : Z) (s : Session) :
  consumed (input (gzip (snd (on_drain now s)))) = consumed (input (gzip s)).
Proof.
  rewrite on_drain_unfolded.
  destruct (0 <? dropCount s)%N; cbn [snd gzip]; unfold gzip_flush;
    cbn [input]; [|reflexivity].
  unfold gzip_write, stream_write. reflexivity.
Qed.

(** One event: the request body keeps step with the compressor, and what
    the compressor was given only grows at its end. *)
Lemma deliver_piped (te : N * Event) (p : Process) :
  sound p -> piped p ->
  piped (deliver te p)
  /\ exists more,
       accepted (input (gzip (session (deliver te p)))) =
       (accepted (input (gzip (session p))) ++ more)%list.
Proof.
  destruct te as [t ev]. unfold deliver. cbn [fst snd]. intros Hs Hpi.
  assert (Hf : sound (fire_timer t p) /\ piped (fire_timer t p)
               /\ session (fire_timer t p) = session p).
  { unfold fire_timer. destruct (uncaught p) eqn:Hu, (timer p) as [d|] eqn:Ht;
      try (split; [exact Hs | split; [exact Hpi | reflexivity]]).
    destruct (d <=? t)%N; [|split; [exact Hs | split; [exact Hpi | reflexivity]]].
    split; [|split; [exact Hpi | reflexivity]].
    destruct Hs as ([Hp|Hp] & Hc & Hw); unfold sound; cbn [promise session];
      rewrite Hp; cbn; auto. }
  destruct Hf as (Hs' & Hpi' & Hsess). rewrite <- Hsess. clear Hsess Hs Hpi.
  revert Hs' Hpi'. generalize (fire_timer t p) as q. clear p.
  intros q (Hp & _) (r & Hr & Hh & Hb).
  assert (Hsame : piped q /\ exists more,
             accepted (input (gzip (session q))) =
             (accepted (input (gzip (session q))) ++ more)%list).
  { split; [exists r; auto | exists []; now rewrite app_nil_r]. }
  unfold step. destruct (uncaught q); [exact Hsame|].
  destruct ev as [e | msg | now]; [exact Hsame | |].
  - destruct Hp as [Hp|Hp]; rewrite Hp; [exact Hsame|].
    unfold with_session. cbn [session].
    destruct (write_consumed msg (session q)) as [Hc Hm].
    split; [|exact Hm].
    exists r. cbn [requests session]. now rewrite Hc.
  - unfold gzip_consume, stream_consume.
    destruct (buffered (input (gzip (session q)))) as [|c rest] eqn:Eb.
    + cbn [pipe_chunk]. split.
      * exists r. cbn [requests session gzip input]. auto.
      * exists []. cbn [session gzip input]. now rewrite app_nil_r.
    + assert (Hreq : exists r',
                 pipe_chunk (Some c) (requests q) = [r']
                 /\ headersSent r' = true
                 /\ bodies r' = (consumed (input (gzip (session q))) ++ [c])%list).
      { rewrite Hr. cbn [pipe_chunk]. eexists. split; [reflexivity|].
        unfold request_write, flushHeaders. rewrite Hh.
        unfold headersSent, bodies in *. cbn [sent]. split.
        - destruct (sent r); [discriminate | reflexivity].
        - rewrite flat_map_app. cbn [flat_map]. now rewrite app_nil_r, Hb. }
      destruct Hreq as (r' & Hr' & Hh' & Hb').
      assert (Hacc : (accepted (input (gzip (session q))))
                     = ((consumed (input (gzip (session q))) ++ [c]) ++ rest)%list).
      { unfold accepted. rewrite Eb. now rewrite <- app_assoc. }
      destruct (match rest with [] => needDrain (input (gzip (session q)))
                           | _ => false end).
      * unfold with_session. cbn [session requests].
        match goal with
        | |- context [on_drain now ?s0] =>
            pose proof (on_drain_consumed now s0) as Hc;
            destruct (on_drain_effect now s0) as (_ & _ & _ & Ha & _)
        end.
        split.
        -- exists r'. cbn [requests session]. rewrite Hc. cbn [gzip input consumed].
           auto.
        -- eexists. rewrite Ha. cbn [gzip input]. unfold accepted at 1.
           cbn [consumed buffered]. rewrite Hacc. reflexivity.
      * split.
        -- exists r'. cbn [requests session gzip input consumed]. auto.
        -- exists []. cbn [session gzip input]. unfold accepted at 1.
           cbn [consumed buffered]. now rewrite Hacc, app_nil_r.
Qed.

Lemma Logger_piped (url secret : string) : piped (Logger url secret).
Proof. eexists. repeat split; reflexivity. Qed.

Lemma run_piped (evs : list (N * Event)) :
  forall p, sound p -> piped p ->
  sound (run evs p) /\ piped (run evs p)
  /\ exists more,
       accepted (input (gzip (session (run evs p)))) =
       (accepted (input (gzip (session p))) ++ more)%list.
Proof.
  induction evs as [|te evs IH]; intros p Hs Hp.
  - split; [exact Hs | split; [exact Hp|]]. exists []. cbn. now rewrite app_nil_r.
  - rewrite run_cons.
    destruct (deliver_piped te p Hs Hp) as [Hp' [m1 H1]].
    destruct (IH _ (deliver_sound te p Hs) Hp') as (Hs2 & Hp2 & m2 & H2).
    split; [exact Hs2 | split; [exact Hp2|]].
    exists (m1 ++ m2)%list. now rewrite H2, H1, app_assoc.
Qed.

(** X16.  Over any run of [index.ts] the output is an append-only log:
    events that come later only add chunks after those the compressor was
    already given, never change or reorder them; and the body that went
    out on the (single) request is at every moment the front part of that
    log, namely the chunks the compressor has handed over. *)
Theorem output_is_append_only :
  forall (url secret : string) (evs later : list (N * Event)),
    let p := run evs (Logger url secret) in
    let p' := run (evs ++ later) (Logger url secret) in
    (exists more,
        accepted (input (gzip (session p'))) =
        (accepted (input (gzip (session p))) ++ more)%list)
    /\ body_chunks p = consumed (input (gzip (session p)))
    /\ accepted (input (gzip (session p))) =
       (body_chunks p ++ buffered (input (gzip (session p))))%list.
Proof.
  intros url secret evs later p p'. subst p p'.
  destruct (run_piped evs _ (Logger_sound url secret) (Logger_piped url secret))
    as (Hs & Hpi & _).
  rewrite run_app.
  destruct (run_piped later _ Hs Hpi) as (_ & _ & Hmore).
  destruct Hpi as (r & Hr & _ & Hb).
  assert (Hbody : body_chunks (run evs (Logger url secret))
                  = consumed (input (gzip (session (run evs (Logger url secret)))))).
  { unfold body_chunks. rewrite Hr. cbn [flat_map]. now rewrite app_nil_r. }
  split; [exact Hmore | split; [exact Hbody|]].
  unfold accepted. now rewrite Hbody.
Qed.

End WholeLife.

Section DelayEdge.

Import Main.

Lemma exact_is_a_number (z : Z) : exact z <> NaN.
Proof. unfold exact. now destruct (Z.abs z <=? MAX_EXACT)%Z. Qed.

Lemma leading_digits_empty (s : string) :
  leading_digits s = "" <->
  match s with String c _ => is_digit c = false | EmptyString => True end.
Proof.
  destruct s as [|c r]; cbn [leading_digits]; [tauto|].
  destruct (is_digit c); split; (discriminate || reflexivity).
Qed.

(** [parseInt] gives [NaN] exactly on the texts that do not start with a
    number. *)
Lemma parseInt_NaN (s : string) :
  parseInt s = NaN <-> starts_with_number s = false.
Proof.
  unfold parseInt, starts_with_number.
  assert (H : forall (neg : bool) (t : string),
             match leading_digits t with
             | EmptyString => NaN
             | String c r =>
                 exact (if neg then (- Z.of_N (digits_value (String c r)))%Z
                        else Z.of_N (digits_value (String c r)))
             end = NaN
             <-> match t with
                 | String c _ => is_digit c = false
                 | EmptyString => True
                 end).
  { intros neg t. rewrite <- leading_digits_empty.
    destruct (leading_digits t); split; try reflexivity; try discriminate.
    intros H. now apply exact_is_a_number in H. }
  destruct (trim_start s) as [|c r].
  - rewrite (H false ""). tauto.
  - destruct (Ascii.eqb c "-") eqn:Em.
    { apply Ascii.eqb_eq in Em. subst c. rewrite (H true r).
      cbn [is_digit orb]. destruct r as [|d r']; [tauto|].
      change (is_digit "-") with false. cbv iota. tauto. }
    destruct (Ascii.eqb c "+") eqn:Ep.
    { apply Ascii.eqb_eq in Ep. subst c. rewrite (H false r).
      destruct r as [|d r']; [tauto|].
      change (is_digit "+") with false. cbv iota. cbn [orb]. tauto. }
    rewrite (H false (String c r)). cbn [orb].
    destruct (is_digit c); split; (discriminate || reflexivity).
Qed.

Lemma turns_NaN (ids : list Num) (clocks : list Clock) :
  forall c : Z,
    (0 <= c)%Z ->
    (c + Z.of_nat (List.length clocks) <= MAX_EXACT)%Z ->
    exists ts,
      turns ids clocks {| count := Int c; delay := NaN |} =
        Some (ts, {| count := Int (c + Z.of_nat (List.length clocks));
                     delay := NaN |})
      /\ List.length ts = List.length clocks
      /\ Forall (fun t =>
                   slept t = NaN
                   /\ delay (after t) = NaN
                   /\ has_substring "Next message in NaN(s)" (printed t) = true)
                ts.
Proof.
  induction clocks as [|now rest IH]; intros c Hc0 Hc.
  - exists []. split; [|split; [reflexivity | constructor]].
    cbn [turns List.length]. do 2 f_equal. f_equal. f_equal. cbn. lia.
  - cbn [List.length] in *. rewrite Nat2Z.inj_succ in Hc.
    assert (Hm : (0 < MAX_EXACT)%Z) by reflexivity.
    destruct (IH (c + 1)%Z ltac:(lia) ltac:(lia)) as (ts & Ht & Hl & Hf).
    assert (E0 : exact (c + 1) = Int (c + 1)) by (apply exact_in_range; lia).
    cbn [turns]. unfold turn at 1.
    cbn [delay count increment NumToString after times_1000].
    rewrite E0, Ht. eexists. split; [|split].
    + do 2 f_equal. f_equal. f_equal. lia.
    + cbn [List.length]. now rewrite Hl.
    + constructor; [|exact Hf]. cbn [slept after delay printed].
      split; [reflexivity | split; [reflexivity|]].
      assert (E : utc now ++ " - Test message No. " ++ NumberToString c
                  ++ ". Next message in " ++ "NaN" ++ "(s)" =
                  (utc now ++ " - Test message No. " ++ NumberToString c ++ ". ")
                  ++ "Next message in NaN(s)" ++ "").
      { repeat first [rewrite !append_assoc | progress cbn [append]].
        reflexivity. }
      rewrite E. apply has_substring_middle.
Qed.

(** X17.  An [INITIAL_DELAY] that is unset or empty counts as 0; one that
    does not start with a number -- after white space, neither a digit
    nor a sign and a digit -- makes the delay [NaN], and only such a one
    does; and [NaN] the delay stays: every turn of the loop (as far as
    the counter is an integer a double holds exactly, [2 ^ 53] turns)
    then prints [NaN] as the next delay and asks [sleep] for [NaN]. *)
Theorem non_numeric_delay_never_recovers :
  forall (u k ep sid : option string) (text : string)
         (ids : list Num) (clocks : list Clock),
    (Z.of_nat (List.length clocks) <= MAX_EXACT)%Z ->
    initial_delay_of {| UUID := u; API_KEY := k; API_ENDPOINT := ep;
                        INITIAL_DELAY := None; SERVICE_ID := sid |} = Int 0
    /\ initial_delay_of {| UUID := u; API_KEY := k; API_ENDPOINT := ep;
                           INITIAL_DELAY := Some ""; SERVICE_ID := sid |} = Int 0
    /\ (initial_delay_of {| UUID := u; API_KEY := k; API_ENDPOINT := ep;
                            INITIAL_DELAY := Some text; SERVICE_ID := sid |} = NaN
        <-> text <> "" /\ starts_with_number text = false)
    /\ exists ts,
         turns ids clocks {| count := Int 0; delay := NaN |} =
           Some (ts, {| count := Int (Z.of_nat (List.length clocks));
                        delay := NaN |})
         /\ List.length ts = List.length clocks
         /\ Forall (fun t =>
                      slept t = NaN
                      /\ delay (after t) = NaN
                      /\ has_substring "Next message in NaN(s)" (printed t) = true)
                   ts.
Proof.
  intros u k ep sid text ids clocks Hn.
  split; [reflexivity|]. split; [reflexivity|]. split.
  - unfold initial_delay_of. cbn [INITIAL_DELAY].
    destruct text as [|c r].
    + cbn. split; [discriminate | intros [H _]; congruence].
    + cbn [or_else]. rewrite parseInt_NaN. split.
      * intros H. split; [discriminate | exact H].
      * intros [_ H]. exact H.
  - apply (turns_NaN ids clocks 0%Z); [lia | exact Hn].
Qed.

End DelayEdge.

(* ------------------------------------------------------------------ *)
(** ** More concrete runs *)

Section MoreRuns.

Import Index.

Lemma session_invariants_witness :
  let big := [("message", JsString (padding 1100))] in
  let s := session (run [(5000%N, Call big)] (Logger "u" "k")) in
  writable s = false
  /\ needDrain (input (gzip s)) = true
  /\ buffered (input (gzip s)) <> [].
Proof.
  intros big s.
  destruct (session_invariants "u" "k" [(5000%N, Call big)]) as [_ H].
  assert (Hw : writable s = false) by (vm_compute; reflexivity).
  split; [exact Hw | exact (H Hw)].
Defined.

Lemma late_request_event_ends_the_process_witness :
  let m := [("message", JsString "a")] in
  let p := run [(5000%N, Call m); (9000%N, Req (response 200));
                (9001%N, Call m)]
               (Logger "u" "k") in
  promise p = Fulfilled write
  /\ uncaught p =
     Some (LoggerError
             "Received response from log backend with status code: 200"
             (Some (IncomingMessage 200)))
  /\ List.length (accepted (input (gzip (session p)))) = 1%nat.
Proof.
  intros m p.
  destruct (late_request_event_ends_the_process "u" "k" 5000%N 9000%N
              [(5000%N, Call m)] [(9001%N, Call m)] (response 200)
              ltac:(unfold RESPONSE_GRACE_PERIOD; lia) eq_refl)
    as (Hp & Hu & _ & Hs & _).
  split; [exact Hp | split; [exact Hu|]].
  change (session p) with
    (session (run ([(5000%N, Call m)] ++ (9000%N, Req (response 200))
                   :: [(9001%N, Call m)])
                  (fire_timer 5000 (Logger "u" "k")))).
  rewrite Hs. reflexivity.
Defined.

Lemma drops_are_reported_once_the_sink_empties_witness :
  let big := [("message", JsString (padding 1100))] in
  let m := [("message", JsString "a")] in
  let p := run [(5000%N, Call big); (5001%N, Call m); (5002%N, Call m)]
               (Logger "u" "k") in
  let q := finish 5003%N 1700000000000%Z p in
  dropCount (session p) = 2%N
  /\ dropCount (session q) = 0%N
  /\ List.length (accepted (input (gzip (session q)))) = 2%nat.
Proof.
  intros big m p q.
  assert (Ha : alive p) by (vm_compute; auto).
  assert (Hf : writable (session p) = false) by (vm_compute; reflexivity).
  assert (Hw : wakeup_due (session p)).
  { intros _. vm_compute. split; [reflexivity | discriminate]. }
  destruct (drops_are_reported_once_the_sink_empties p 5003%N 1700000000000%Z
              Ha Hf Hw) as (Hd & Hacc & _).
  split; [vm_compute; reflexivity | split; [exact Hd|]].
  fold q in Hacc. rewrite Hacc. vm_compute. reflexivity.
Defined.

Lemma throttled_unforwarded_write_asks_no_flush_witness :
  let bad := [("id", JsBigInt 7)] in
  let m := [("message", JsString "a")] in
  let down :=
    {| Throttled.writable := false; Throttled.dropCount := 4;
       Throttled.log := Throttled.log Throttled.initial;
       Throttled.throttle := Throttled.throttle Throttled.initial;
       Throttled.slots := []; Throttled.console := [] |} in
  Throttled.slots (snd (Throttled.write 5000%Z bad Throttled.initial)) = []
  /\ Throttled.slots (snd (Throttled.write 5000%Z m down)) = []
  /\ Throttled.dropCount (snd (Throttled.write 5000%Z m down)) = 5%N.
Proof.
  intros bad m down.
  destruct throttled_unforwarded_write_asks_no_flush as [Hdrop Hcatch].
  rewrite (Hcatch 5000%Z bad Throttled.initial
             (TypeError "Do not know how to serialize a BigInt")
             eq_refl eq_refl).
  rewrite (Hdrop 5000%Z m down eq_refl).
  repeat split.
Defined.

Lemma burst_of_flushes_is_spread_out_witness :
  Throttled.slots (Throttled.flush_burst 3 5000%Z Throttled.initial) =
  [5000%Z; 5100%Z; 5200%Z]
  /\ Throttled.last_slot
       (Throttled.slots (Throttled.flush_burst 11 5000%Z Throttled.initial)) =
     Some 6000%Z.
Proof.
  destruct (burst_of_flushes_is_spread_out 3 5000%Z
              ltac:(unfold Throttled.ZLIB_TIMEOUT; lia)) as (H3 & _ & _).
  destruct (burst_of_flushes_is_spread_out 10 5000%Z
              ltac:(unfold Throttled.ZLIB_TIMEOUT; lia)) as (_ & _ & H10).
  split; [exact H3 | exact H10].
Defined.

Lemma service_ids_are_read_back_witness :
  Main.serviceIds
    {| Main.UUID := Some "x"; Main.API_KEY := Some "key";
       Main.API_ENDPOINT := None; Main.INITIAL_DELAY := None;
       Main.SERVICE_ID := Some " 12,,7  " |}
  = [Main.Int 12; Main.Int 7].
Proof.
  assert (Hsmall :
            Forall (fun o => match o with
                             | Some (_, n, _) => (Z.of_N n <= Main.MAX_EXACT)%Z
                             | None => True
                             end)
                   [Some (1%nat, 12%N, 0%nat); None; Some (0%nat, 7%N, 2%nat)]).
  { repeat constructor; cbv; discriminate. }
  exact (proj1 (service_ids_are_read_back (Some "x") (Some "key") None None
                  _ Hsmall)).
Defined.


Lemma non_numeric_delay_never_recovers_witness :
  let clocks :=
    [ {| Main.utc := "Thu, 01 Jan 1970 00:00:00 GMT"; Main.millis := 0 |};
      {| Main.utc := "Thu, 01 Jan 1970 00:00:00 GMT"; Main.millis := 1 |} ] in
  (Main.initial_delay_of
     {| Main.UUID := Some "x"; Main.API_KEY := Some "key";
        Main.API_ENDPOINT := None; Main.INITIAL_DELAY := Some " +later";
        Main.SERVICE_ID := None |} = Main.NaN)
  /\ exists ts,
       Main.turns [] clocks {| Main.count := Main.Int 0; Main.delay := Main.NaN |}
       = Some (ts, {| Main.count := Main.Int 2; Main.delay := Main.NaN |})
       /\ map Main.slept ts = [Main.NaN; Main.NaN].
Proof.
  intros clocks.
  destruct (non_numeric_delay_never_recovers (Some "x") (Some "key") None None
              " +later" [] clocks ltac:(cbv; discriminate))
    as (_ & _ & Hnan & ts & Ht & Hl & Hf).
  split.
  - apply Hnan. split; [discriminate | reflexivity].
  - exists ts. split; [exact Ht|].
    destruct ts as [|t1 [|t2 [|t3 ts]]]; try discriminate Hl.
    inversion Hf as [|? ? (H1 & _) Hf']. inversion Hf' as [|? ? (H2 & _) _].
    cbn [map]. now rewrite H1, H2.
Defined.

(** An endpoint that is not https, then whatever happens: the process
    has ended on the [TypeError] of [https.request], and no request
    event was needed for it. *)
Example refused_url_ends_the_process :
  let p := life [ (5000%N, Event_of (Call [("message", JsString "a")])) ]
                (Logger_call sample_protocol_of
                   "http://localhost:3000/device/v2/x/log-stream" "key") in
  requests p = []
  /\ promise p = Pending
  /\ uncaught p =
     Some (TypeError ("Protocol " ++ dq ++ "http:" ++ dq
                      ++ " not supported. Expected " ++ dq ++ "https:" ++ dq)).
Proof. repeat split. Qed.

(** A secret with a line break in it is refused as a header value. *)
Example refused_secret_ends_the_process :
  https_request_error sample_protocol_of
    "https://api.balena-cloud.com/device/v2/x/log-stream"
    (Logger_options ("key" ++ newline))
  = Some (TypeError ("Invalid character in header content ["
                     ++ dq ++ "Authorization" ++ dq ++ "]")).
Proof. reflexivity. Qed.

(** A pipeline failure after the handshake ends the process as well. *)
Example pipeline_failure_ends_the_process :
  let p := life [ (5000%N, Event_of (Call [("message", JsString "a")]));
                  (9000%N, Pipeline (Some "write EPIPE"));
                  (9001%N, Event_of (Call [("message", JsString "b")])) ]
                (Logger_call sample_protocol_of
                   "https://api.balena-cloud.com/device/v2/x/log-stream" "key") in
  promise p = Fulfilled write
  /\ uncaught p =
     Some (LoggerError "Failed to create gzip stream"
             (Some (SystemError "write EPIPE")))
  /\ List.length (accepted (input (gzip (session p)))) = 1%nat.
Proof. repeat split. Qed.

End MoreRuns.
